(** * The discovery pipeline of pa11y-go-wrapper: a shallow embedding

    The Go package [internal/discovery] resolves a sitemap, samples the
    URL population, asks a text-generation service to narrow it down,
    fetches the head section of the surviving pages, asks the service to
    select and categorise, and checks the status of every result.

    Go strings are byte sequences: they are modelled as [list ascii].
    Integers that index strings are [Z], as the code computes with [-1].
    A computation that can panic returns a [run]. *)

From Stdlib Require Import ZArith NArith Ascii String List Lia Permutation Sorted.
From stdpp Require Import base tactics option list gmap strings.

Local Open Scope Z_scope.

(** ** Go strings *)

Abbreviation gostring := (list ascii).

(** A literal. *)
Definition str (s : string) : gostring := list_ascii_of_string s.
Arguments str : simpl never.

Definition dquote : ascii := ascii_of_nat 34.

(** A literal in which every apostrophe stands for a double quote. *)
Definition qstr (s : string) : gostring :=
  map (fun c => if Ascii.eqb c "'" then dquote else c) (str s).

Definition len {A} (s : list A) : Z := Z.of_nat (length s).

Definition byte_of (c : ascii) : N := N_of_ascii c.

(** ** Outcomes of a run *)

Inductive run (A : Type) : Type :=
| Ret (a : A)
| Panic
| OutOfFuel.
Arguments Ret {A} a.
Arguments Panic {A}.
Arguments OutOfFuel {A}.

Definition run_bind {A B} (m : run A) (k : A -> run B) : run B :=
  match m with
  | Ret a => k a
  | Panic => Panic
  | OutOfFuel => OutOfFuel
  end.

(** [s[lo:hi]], which panics unless [0 <= lo <= hi <= len(s)]. *)
Definition slice (s : gostring) (lo hi : Z) : run gostring :=
  if (0 <=? lo) && (lo <=? hi) && (hi <=? len s)
  then Ret (take (Z.to_nat hi - Z.to_nat lo) (drop (Z.to_nat lo) s))
  else Panic.

Definition slice_from (s : gostring) (lo : Z) : run gostring := slice s lo (len s).
Definition slice_to (s : gostring) (hi : Z) : run gostring := slice s 0 hi.

(** ** Package strings *)

Fixpoint HasPrefix (s prefix : gostring) {struct prefix} : bool :=
  match prefix, s with
  | [], _ => true
  | p :: ps, c :: cs => Ascii.eqb c p && HasPrefix cs ps
  | _ :: _, [] => false
  end.

Definition HasSuffix (s suffix : gostring) : bool :=
  HasPrefix (rev s) (rev suffix).

Fixpoint index_from (s substr : gostring) (i : Z) : Z :=
  if HasPrefix s substr then i
  else match s with
       | [] => -1
       | _ :: cs => index_from cs substr (i + 1)
       end.

(** [strings.Index]: the first position of [substr] in [s], or [-1]. *)
Definition Index (s substr : gostring) : Z := index_from s substr 0.

Definition TrimPrefix (s prefix : gostring) : gostring :=
  if HasPrefix s prefix then drop (length prefix) s else s.

Definition TrimSuffix (s suffix : gostring) : gostring :=
  if HasSuffix s suffix then take (length s - length suffix)%nat s else s.

Definition Join (elems : list gostring) (sep : gostring) : gostring :=
  match elems with
  | [] => []
  | e :: es => e ++ flat_map (fun x => sep ++ x) es
  end.

(** *** UTF-8, as package unicode/utf8 decodes and encodes it *)

Definition RuneSelf : N := 128.
Definition RuneError : N := 65533.
Definition MaxRune : N := 1114111.

Definition is_ascii_byte (c : ascii) : bool := (byte_of c <? RuneSelf)%N.

Definition in_range (lo hi : N) (c : ascii) : bool :=
  ((lo <=? byte_of c) && (byte_of c <=? hi))%N.

Definition cont_bits (c : ascii) : N := N.land (byte_of c) 63.

(** [utf8.DecodeRuneInString]: the first rune of [s] and its width; a
    byte that does not start a valid encoding decodes to [RuneError] with
    width one. *)
Definition DecodeRuneInString (s : gostring) : N * nat :=
  match s with
  | [] => (RuneError, 0%nat)
  | b0 :: t0 =>
    if is_ascii_byte b0 then (byte_of b0, 1%nat)
    else
      match t0 with
      | [] => (RuneError, 1%nat)
      | b1 :: t1 =>
        if in_range 194 223 b0 then
          if in_range 128 191 b1
          then ((N.shiftl (N.land (byte_of b0) 31) 6 + cont_bits b1)%N, 2%nat)
          else (RuneError, 1%nat)
        else
          match t1 with
          | [] => (RuneError, 1%nat)
          | b2 :: t2 =>
            if in_range 224 239 b0 then
              if in_range (if (byte_of b0 =? 224)%N then 160 else 128)
                          (if (byte_of b0 =? 237)%N then 159 else 191) b1
                 && in_range 128 191 b2
              then ((N.shiftl (N.land (byte_of b0) 15) 12
                     + N.shiftl (cont_bits b1) 6 + cont_bits b2)%N, 3%nat)
              else (RuneError, 1%nat)
            else
              match t2 with
              | [] => (RuneError, 1%nat)
              | b3 :: _ =>
                if in_range 240 244 b0
                   && in_range (if (byte_of b0 =? 240)%N then 144 else 128)
                               (if (byte_of b0 =? 244)%N then 143 else 191) b1
                   && in_range 128 191 b2 && in_range 128 191 b3
                then ((N.shiftl (N.land (byte_of b0) 7) 18
                       + N.shiftl (cont_bits b1) 12
                       + N.shiftl (cont_bits b2) 6 + cont_bits b3)%N, 4%nat)
                else (RuneError, 1%nat)
              end
          end
      end
  end.

Fixpoint runes_loop (fuel : nat) (s : gostring) : list N :=
  match fuel, s with
  | S fuel', _ :: _ =>
    let '(r, size) := DecodeRuneInString s in
    r :: runes_loop fuel' (drop size s)
  | _, _ => []
  end.

(** The runes of [s] as [for _, c := range s] yields them; every step
    consumes a byte at least, so [length s] steps are enough. *)
Definition runes (s : gostring) : list N := runes_loop (length s) s.

(** [utf8.RuneStart] *)
Definition RuneStart (c : ascii) : bool := negb (N.land (byte_of c) 192 =? 128)%N.

(** The scan of [utf8.DecodeLastRuneInString] over the reversed string:
    how many bytes from the end the candidate encoding starts, before
    the bound by the length. *)
Definition last_rune_back (r : gostring) : nat :=
  match r with
  | _ :: c1 :: r1 =>
    if RuneStart c1 then 2%nat
    else match r1 with
         | c2 :: r2 =>
           if RuneStart c2 then 3%nat
           else match r2 with
                | c3 :: _ => if RuneStart c3 then 4%nat else 5%nat
                | [] => 5%nat
                end
         | [] => 5%nat
         end
  | _ => 5%nat
  end.

(** [utf8.DecodeLastRuneInString] *)
Definition DecodeLastRuneInString (s : gostring) : N * nat :=
  match rev s with
  | [] => (RuneError, 0%nat)
  | c0 :: _ =>
    if is_ascii_byte c0 then (byte_of c0, 1%nat)
    else
      let start := (length s - Nat.min (last_rune_back (rev s)) (length s))%nat in
      let '(r, size) := DecodeRuneInString (drop start s) in
      if bool_decide ((start + size)%nat = length s) then (r, size)
      else (RuneError, 1%nat)
  end.

(** [unicode.IsSpace] *)
Definition IsSpace (r : N) : bool :=
  ((9 <=? r) && (r <=? 13) || (r =? 32) || (r =? 133) || (r =? 160)
   || (r =? 5760) || (8192 <=? r) && (r <=? 8202) || (r =? 8232)
   || (r =? 8233) || (r =? 8239) || (r =? 8287) || (r =? 12288))%N.

Fixpoint TrimLeftFunc_loop (fuel : nat) (s : gostring) : gostring :=
  match fuel, s with
  | S fuel', _ :: _ =>
    let '(r, size) := DecodeRuneInString s in
    if IsSpace r then TrimLeftFunc_loop fuel' (drop size s) else s
  | _, _ => s
  end.

(** [strings.TrimLeftFunc(s, unicode.IsSpace)] *)
Definition TrimLeftFunc_IsSpace (s : gostring) : gostring :=
  TrimLeftFunc_loop (length s) s.

Fixpoint TrimRightFunc_loop (fuel : nat) (s : gostring) : gostring :=
  match fuel, s with
  | S fuel', _ :: _ =>
    let '(r, size) := DecodeLastRuneInString s in
    if IsSpace r then TrimRightFunc_loop fuel' (take (length s - size)%nat s) else s
  | _, _ => s
  end.

(** [strings.TrimRightFunc(s, unicode.IsSpace)] *)
Definition TrimRightFunc_IsSpace (s : gostring) : gostring :=
  TrimRightFunc_loop (length s) s.

(** [strings.TrimFunc(s, unicode.IsSpace)] *)
Definition TrimFunc_IsSpace (s : gostring) : gostring :=
  TrimRightFunc_IsSpace (TrimLeftFunc_IsSpace s).

Definition byte_chr (n : N) : ascii := ascii_of_N n.

Definition cont_byte (n : N) : ascii := byte_chr (128 + N.land n 63).

(** [utf8.AppendRune]: surrogates and values above [MaxRune] are written
    as [RuneError]. *)
Definition encode_rune (r : N) : gostring :=
  if (r <? 128)%N then [byte_chr r]
  else if (r <? 2048)%N then [byte_chr (192 + N.shiftr r 6); cont_byte r]
  else if (MaxRune <? r)%N || ((55296 <=? r) && (r <=? 57343))%N
  then [byte_chr 239; byte_chr 191; byte_chr 189]
  else if (r <? 65536)%N
  then [byte_chr (224 + N.shiftr r 12); cont_byte (N.shiftr r 6); cont_byte r]
  else [byte_chr (240 + N.shiftr r 18); cont_byte (N.shiftr r 12);
        cont_byte (N.shiftr r 6); cont_byte r].

(** [strings.Map] for a mapping that never returns a negative rune. *)
Definition Map (mapping : N -> N) (s : gostring) : gostring :=
  flat_map (fun r => encode_rune (mapping r)) (runes s).

Definition is_upper_byte (c : ascii) : bool := in_range 65 90 c.

Definition lower_byte (c : ascii) : ascii :=
  if is_upper_byte c then byte_chr (byte_of c + 32) else c.

Definition asciiSpace (c : ascii) : bool :=
  let n := byte_of c in
  ((n =? 9) || (n =? 10) || (n =? 11) || (n =? 12) || (n =? 13) || (n =? 32))%N.

(** ** Data of the package and of the libraries it calls *)

(** [Result]: a discovered URL with its status and category. *)
Record Result : Type := mkResult {
  URL : gostring;
  Status : gostring;
  Category : gostring
}.

(** The errors the package builds with [fmt.Errorf]; the wrapped cause is
    kept only where the environment supplies its text. *)
Inductive error : Type :=
| ErrFetchSitemap (cause : gostring)
| ErrSitemapStatus (code : Z)
| ErrGzipReader
| ErrParseSitemapXML
| ErrInvalidSitemapFormat
| ErrCallLLM
| ErrParseJSON.

(** An etree element: namespace prefix, tag, leading character data and
    child elements. A document is the list of its top-level elements. *)
#[warnings="-register-all"]
Inductive Element : Type :=
| Elem (space tag text : gostring) (children : list Element).

Definition Space (e : Element) : gostring := let 'Elem s _ _ _ := e in s.
Definition Tag (e : Element) : gostring := let 'Elem _ t _ _ := e in t.
Definition Text (e : Element) : gostring := let 'Elem _ _ x _ := e in x.
Definition Child (e : Element) : list Element := let 'Elem _ _ _ c := e in c.

Abbreviation Document := (list Element).

Fixpoint spaceDecompose_aux (acc s : gostring) : option (gostring * gostring) :=
  match s with
  | [] => None
  | c :: cs => if Ascii.eqb c ":" then Some (rev acc, cs)
               else spaceDecompose_aux (c :: acc) cs
  end.

Definition spaceDecompose (s : gostring) : gostring * gostring :=
  match spaceDecompose_aux [] s with
  | Some p => p
  | None => ([], s)
  end.

Definition spaceMatch (a b : gostring) : bool :=
  match a with
  | [] => true
  | _ => bool_decide (a = b)
  end.

Definition tag_matches (tag : gostring) (c : Element) : bool :=
  let '(space, stag) := spaceDecompose tag in
  spaceMatch space (Space c) && bool_decide (stag = Tag c).

(** [SelectElement]: the first child with the tag. *)
Definition SelectElement (children : list Element) (tag : gostring) : option Element :=
  find (tag_matches tag) children.

(** [SelectElements]: all children with the tag, in document order. *)
Definition SelectElements (children : list Element) (tag : gostring) : list Element :=
  List.filter (tag_matches tag) children.

Inductive gzip_result : Type :=
| GzipBadHeader
| GzipCorrupt
| GzipData (data : gostring).

(** The pure library functions the package calls and whose code is not
    part of the repository. *)
Class GoLib : Type := {
  (** [unicode.To(unicode.LowerCase, r)] for [r] above ASCII *)
  unicode_lower_table : N -> N;
  (** [sort.Slice] with the comparison [len(a) < len(b)] *)
  sort_Slice_by_len : list gostring -> list gostring;
  (** [json.Unmarshal] into a [[]string] *)
  json_Unmarshal_strings : gostring -> option (list gostring);
  (** [json.Unmarshal] into a [[]Result] *)
  json_Unmarshal_results : gostring -> option (list Result);
  (** [etree.Document.ReadFrom] *)
  etree_ReadFrom : gostring -> option Document;
  (** [gzip.NewReader] followed by reading to the end *)
  gzip_decode : gostring -> gzip_result
}.

Record Response : Type := mkResponse {
  StatusCode : Z;
  StatusLine : gostring;
  ContentEncoding : gostring;
  (** [None]: reading the body fails *)
  Body : option gostring
}.

Inductive http_result : Type :=
| HttpErr (msg : gostring)
| HttpOk (resp : Response).

Record LLMRequest : Type := mkLLMRequest {
  Prompt : gostring;
  MaxTokens : Z;
  Model : gostring;
  JSONMode : bool
}.

Inductive llm_result : Type :=
| LLMErr
| LLMChoices (contents : list gostring).

Inductive log_line : Type :=
| LogSubSitemap (loc : gostring) (err : error)
| LogGetURL (url msg : gostring)
| LogReadBody (url : gostring).

(** The world outside the process: the network, the text-generation
    service, the clock and the random source. Every call may change it. *)
Class World : Type := {
  W : Type;
  http_Get : gostring -> W -> http_result * W;
  llm_GenerateContent : LLMRequest -> W -> llm_result * W;
  (** [rand.Seed(time.Now().UnixNano())] *)
  rand_Seed_now : W -> W;
  (** the next raw draw of the global source *)
  rand_draw : W -> nat * W;
  fmt_Printf : log_line -> W -> W;
  time_Sleep : Z -> W -> W
}.

(** ** The state monad of the package *)

Definition M `{World} (A : Type) : Type := W -> run (A * W).

Definition ret `{World} {A} (a : A) : M A := fun w => Ret (a, w).

Definition bind `{World} {A B} (m : M A) (k : A -> M B) : M B :=
  fun w => match m w with
           | Ret (a, w') => k a w'
           | Panic => Panic
           | OutOfFuel => OutOfFuel
           end.

Definition lift `{World} {A} (f : W -> A * W) : M A := fun w => Ret (f w).
Definition effect `{World} (f : W -> W) : M unit := fun w => Ret (tt, f w).
Definition pure_run `{World} {A} (r : run A) : M A :=
  fun w => run_bind r (fun a => Ret (a, w)).
Definition panic `{World} {A} : M A := fun _ => Panic.

Declare Scope go_scope.
Delimit Scope go_scope with go.
Notation "'let*' x ':=' m 'in' k" := (bind m (fun x => k))
  (at level 10, x pattern, m at level 100, k at level 200) : go_scope.
Local Open Scope go_scope.

Section Package.
Context `{GoLib} `{World}.

(** ** More of package strings, which needs the library's tables *)

(** [unicode.ToLower] *)
Definition unicode_ToLower (r : N) : N :=
  if (r <=? 127)%N then
    if ((65 <=? r) && (r <=? 90))%N then (r + 32)%N else r
  else unicode_lower_table r.

(** [strings.ToLower]: bytewise on an ASCII-only string, and otherwise
    [Map(unicode.ToLower, s)], whose result can differ in length. *)
Definition ToLower (s : gostring) : gostring :=
  if forallb is_ascii_byte s then map lower_byte s
  else Map unicode_ToLower s.

(** The second loop of [strings.TrimSpace], over the reversed string. *)
Fixpoint trim_space_stop (r : gostring) : gostring :=
  match r with
  | [] => []
  | c :: cs =>
    if negb (is_ascii_byte c) then TrimRightFunc_IsSpace (rev r)
    else if asciiSpace c then trim_space_stop cs
    else rev r
  end.

(** The first loop of [strings.TrimSpace]. *)
Fixpoint TrimSpace (s : gostring) : gostring :=
  match s with
  | [] => []
  | c :: cs =>
    if negb (is_ascii_byte c) then TrimFunc_IsSpace s
    else if asciiSpace c then TrimSpace cs
    else trim_space_stop (rev s)
  end.

(** ** Stripping tags (service.go) *)

(** One iteration of the loop of [removeTagsAndContent]: [inl] is the
    string the loop goes on with, [inr] the string it stops with. *)
Definition removeTags_step (result openTag closeTag : gostring)
  : run (gostring + gostring) :=
  let openStart := Index (ToLower result) (ToLower openTag) in
  if openStart =? -1 then Ret (inr result)
  else
    run_bind (slice_from result openStart) (fun tail =>
    let openEnd := Index tail (str ">") in
    if openEnd =? -1 then Ret (inr result)
    else
      let openEnd := openEnd + (openStart + 1) in
      run_bind (slice_from result openEnd) (fun rest =>
      let closeStart := Index (ToLower rest) (ToLower closeTag) in
      if closeStart =? -1 then
        run_bind (slice_to result openStart) (fun r => Ret (inr r))
      else
        let closeStart := closeStart + openEnd in
        let closeEnd := closeStart + len closeTag in
        run_bind (slice_to result openStart) (fun before =>
        run_bind (slice_from result closeEnd) (fun after =>
        Ret (inl (before ++ after)))))).

Fixpoint removeTags_loop (fuel : nat) (result openTag closeTag : gostring)
  : run gostring :=
  match fuel with
  | O => OutOfFuel
  | S fuel' =>
    run_bind (removeTags_step result openTag closeTag) (fun next =>
    match next with
    | inl result' => removeTags_loop fuel' result' openTag closeTag
    | inr final => Ret final
    end)
  end.

(** [removeTagsAndContent]: every iteration that goes on shortens the
    string, so [length html + 1] iterations are enough. *)
Definition removeTagsAndContent (html tagName : gostring) : run gostring :=
  let openTag := str "<" ++ tagName in
  let closeTag := str "</" ++ tagName ++ str ">" in
  removeTags_loop (S (length html)) html openTag closeTag.

Definition cleanupHTML (html : gostring) : run gostring :=
  run_bind (removeTagsAndContent html (str "script")) (fun result =>
  removeTagsAndContent result (str "style")).

(** ** Sampling (service.go) *)

(** [rand.Intn(n)] *)
Definition rand_Intn (n : nat) : M nat :=
  lift (fun w => let '(r, w') := rand_draw w in ((r mod n)%nat, w')).

(** The closure passed to [rand.Shuffle]:
    [urlsCopy[i], urlsCopy[j] = urlsCopy[j], urlsCopy[i]]. *)
Definition swap (urlsCopy : list gostring) (i j : nat) : run (list gostring) :=
  match urlsCopy !! i, urlsCopy !! j with
  | Some a, Some b => Ret (<[j := a]> (<[i := b]> urlsCopy))
  | _, _ => Panic
  end.

(** The loop of [rand.Shuffle]: [for ; i > 0; i-- { j := Intn(i+1); swap(i, j) }]. *)
Fixpoint shuffle_loop (i : nat) (urlsCopy : list gostring) : M (list gostring) :=
  match i with
  | O => ret urlsCopy
  | S i' =>
    let* j := rand_Intn (i + 1) in
    let* urlsCopy' := pure_run (swap urlsCopy i j) in
    shuffle_loop i' urlsCopy'
  end.

Definition rand_Shuffle (urlsCopy : list gostring) : M (list gostring) :=
  shuffle_loop (length urlsCopy - 1) urlsCopy.

Definition sampleUrls (siteURL : gostring) (urls : list gostring) : M (list gostring) :=
  if len urls <=? 200 then ret urls
  else
    let urlsCopy := sort_Slice_by_len urls in
    let '(result, urlsCopy) :=
      if 20 <=? len urlsCopy then (take 20 urlsCopy, drop 20 urlsCopy)
      else (urlsCopy, []) in
    if 0 <? len urlsCopy then
      let* _ := effect rand_Seed_now in
      let* urlsCopy := rand_Shuffle urlsCopy in
      let sampleSize := if len urlsCopy <? 180 then len urlsCopy else 180 in
      ret (result ++ take (Z.to_nat sampleSize) urlsCopy)
    else ret result.

(** ** Sitemap resolution (service.go) *)

(** What [doc.ReadFrom(reader)] reads, with the gzip reader in front when
    the response or the URL says so. *)
Definition read_sitemap (sitemapURL : gostring) (resp : Response) : Document + error :=
  if bool_decide (ContentEncoding resp = str "gzip") || HasSuffix sitemapURL (str ".gz")
  then
    match Body resp with
    | None => inr ErrGzipReader
    | Some body =>
      match gzip_decode body with
      | GzipBadHeader => inr ErrGzipReader
      | GzipCorrupt => inr ErrParseSitemapXML
      | GzipData data =>
        match etree_ReadFrom data with
        | Some doc => inl doc
        | None => inr ErrParseSitemapXML
        end
      end
    end
  else
    match Body resp with
    | None => inr ErrParseSitemapXML
    | Some body =>
      match etree_ReadFrom body with
      | Some doc => inl doc
      | None => inr ErrParseSitemapXML
      end
    end.

(** The loop over the [<sitemap>] children of an index; [resolve] is the
    recursive call. *)
Fixpoint index_loop (resolve : gostring -> M (list gostring * option error))
    (sitemapElements : list Element) (urls : list gostring) : M (list gostring) :=
  match sitemapElements with
  | [] => ret urls
  | sitemapElement :: rest =>
    match SelectElement (Child sitemapElement) (str "loc") with
    | None => index_loop resolve rest urls
    | Some loc =>
      let* r := resolve (Text loc) in
      match r with
      | (_, Some err) =>
        let* _ := effect (fmt_Printf (LogSubSitemap (Text loc) err)) in
        index_loop resolve rest urls
      | (subSitemapURLs, None) =>
        index_loop resolve rest (urls ++ subSitemapURLs)
      end
    end
  end.

(** The loop over the [<url>] children of a URL set. *)
Definition urlset_loop (urlElements : list Element) : list gostring :=
  foldl (fun urls urlElement =>
           match SelectElement (Child urlElement) (str "loc") with
           | Some loc => urls ++ [Text loc]
           | None => urls
           end) [] urlElements.

(** The body of [parseXMLSitemap]; [resolve] is the recursive call. *)
Definition parseXMLSitemap_body (resolve : gostring -> M (list gostring * option error))
    (sitemapURL : gostring) : M (list gostring * option error) :=
  let* r := lift (http_Get sitemapURL) in
  match r with
  | HttpErr msg => ret ([], Some (ErrFetchSitemap msg))
  | HttpOk resp =>
    if negb (StatusCode resp =? 200)
    then ret ([], Some (ErrSitemapStatus (StatusCode resp)))
    else
      match read_sitemap sitemapURL resp with
      | inr err => ret ([], Some err)
      | inl doc =>
        match SelectElement doc (str "sitemapindex") with
        | Some sitemapIndex =>
          let* urls := index_loop resolve
                         (SelectElements (Child sitemapIndex) (str "sitemap")) [] in
          ret (urls, None)
        | None =>
          match SelectElement doc (str "urlset") with
          | Some urlset =>
            ret (urlset_loop (SelectElements (Child urlset) (str "url")), None)
          | None => ret ([], Some ErrInvalidSitemapFormat)
          end
        end
      end
  end.

(** [parseXMLSitemap]; the recursion has no bound in the source, so the
    model counts the nesting it is allowed. *)
Fixpoint parseXMLSitemap (fuel : nat) (sitemapURL : gostring)
  : M (list gostring * option error) :=
  match fuel with
  | O => fun _ => OutOfFuel
  | S fuel' => parseXMLSitemap_body (parseXMLSitemap fuel') sitemapURL
  end.

Definition getURLsFromSitemap (fuel : nat) (siteURL : gostring)
  : M (list gostring * option error) :=
  parseXMLSitemap fuel (siteURL ++ str "/sitemap.xml").

(** ** Head extraction and status check (service.go) *)

(** The body of the loop of [extractHeads]. *)
Definition extractHeads_step (heads : gmap gostring gostring) (url : gostring)
  : M (gmap gostring gostring) :=
  let* r := lift (http_Get url) in
  match r with
  | HttpErr msg =>
    let* _ := effect (fmt_Printf (LogGetURL url msg)) in
    ret (<[url := []]> heads)
  | HttpOk resp =>
    match Body resp with
    | None =>
      let* _ := effect (fmt_Printf (LogReadBody url)) in
      ret (<[url := []]> heads)
    | Some bodyString =>
      let headStart := Index bodyString (str "<head>") in
      let headEnd := Index bodyString (str "</head>") in
      let* heads' :=
        (if negb (headStart =? -1) && negb (headEnd =? -1) then
           let* headContent :=
             pure_run (slice bodyString (headStart + len (str "<head>")) headEnd) in
           let* cleaned := pure_run (cleanupHTML headContent) in
           ret (<[url := cleaned]> heads)
         else ret (<[url := []]> heads)) in
      let* _ := effect (time_Sleep 100) in
      ret heads'
    end
  end.

Fixpoint extractHeads_loop (urls : list gostring) (heads : gmap gostring gostring)
  : M (gmap gostring gostring) :=
  match urls with
  | [] => ret heads
  | url :: rest =>
    let* heads' := extractHeads_step heads url in
    extractHeads_loop rest heads'
  end.

Definition extractHeads (urls : list gostring)
  : M (gmap gostring gostring * option error) :=
  let* heads := extractHeads_loop urls ∅ in
  ret (heads, None).

Definition checkURLStatus (url : gostring) : M gostring :=
  let* r := lift (http_Get url) in
  match r with
  | HttpErr msg => ret (str "Error: " ++ msg)
  | HttpOk resp => ret (StatusLine resp)
  end.

(** ** The curation client (llm.go) *)

Definition nl : gostring := [ascii_of_nat 10].

Definition fence_open : gostring := str "```json".
Definition fence_close : gostring := str "```".

Definition parseJSONURLs (input : gostring) : list gostring * option error :=
  let input := TrimPrefix input fence_open in
  let input := TrimSuffix input fence_close in
  let input := TrimSpace input in
  match json_Unmarshal_strings input with
  | None => ([], Some ErrParseJSON)
  | Some urls => (urls, None)
  end.

Definition parseJSONResponse (input : gostring) : list Result * option error :=
  let input := TrimPrefix input fence_open in
  let input := TrimSuffix input fence_close in
  match json_Unmarshal_results input with
  | None => ([], Some ErrParseJSON)
  | Some results => (results, None)
  end.

Definition narrow_prompt (urls : list gostring) (siteCategory : gostring) : gostring :=
  str "From the following list of URLs, select the 20 most relevant URLs for a site also exploring different categories '"
  ++ siteCategory ++ str "'." ++ nl ++ nl ++ str "URLs:" ++ nl
  ++ Join urls nl ++ nl ++ nl ++ str "Return a json list of selected URLs.".

Definition NarrowDownURLs (urls : list gostring) (siteCategory : gostring)
  : M (list gostring * option error) :=
  let prompt := narrow_prompt urls siteCategory in
  let* resp := lift (llm_GenerateContent
                       (mkLLMRequest prompt 12048 (str "gemini-2.5-flash") true)) in
  match resp with
  | LLMErr => ret ([], Some ErrCallLLM)
  | LLMChoices [] => panic
  | LLMChoices (content :: _) => ret (parseJSONURLs content)
  end.

Definition select_prompt (urls : list gostring) (heads : gmap gostring gostring)
    (siteCategory : gostring) : gostring :=
  let prompt :=
    str "From the following list of URLs and their HTML head sections, select the 10 most relevant URLs for a site with the category '"
    ++ siteCategory
    ++ str "'. For each selected URL, assign a relevant category." ++ nl ++ nl in
  let prompt :=
    foldl (fun prompt url =>
             prompt ++ str "URL: " ++ url ++ nl ++ str "Head:" ++ nl
             ++ default [] (heads !! url) ++ nl ++ nl) prompt urls in
  prompt
  ++ str "Return the result as a JSON array of objects, where each object has 'url' and 'category' keys. For example: "
  ++ qstr "[{'url': 'https://example.com', 'category': 'e-commerce'}]".

Definition SelectAndCategorizeURLs (urls : list gostring)
    (heads : gmap gostring gostring) (siteCategory : gostring)
  : M (list Result * option error) :=
  let prompt := select_prompt urls heads siteCategory in
  let* resp := lift (llm_GenerateContent
                       (mkLLMRequest prompt 14096 (str "gemini-2.5-flash") true)) in
  match resp with
  | LLMErr => ret ([], Some ErrCallLLM)
  | LLMChoices [] => panic
  | LLMChoices (content :: _) => ret (parseJSONResponse content)
  end.

(** ** The orchestrator (service.go) *)

(** [for i := range finalResults { finalResults[i].Status = ... }] *)
Fixpoint check_loop (finalResults : list Result) : M (list Result) :=
  match finalResults with
  | [] => ret []
  | r :: rest =>
    let* status := checkURLStatus (URL r) in
    let* rest' := check_loop rest in
    ret (mkResult (URL r) status (Category r) :: rest')
  end.

Definition Discover (fuel : nat) (siteURL siteCategory : gostring)
  : M (list Result * option error) :=
  let* r := getURLsFromSitemap fuel siteURL in
  match r with
  | (_, Some err) => ret ([], Some err)
  | (initialURLs, None) =>
    let* initialURLs := sampleUrls siteURL initialURLs in
    let* r := NarrowDownURLs initialURLs siteCategory in
    match r with
    | (_, Some err) => ret ([], Some err)
    | (narrowedURLs, None) =>
      let* r := extractHeads narrowedURLs in
      match r with
      | (_, Some err) => ret ([], Some err)
      | (heads, None) =>
        let* r := SelectAndCategorizeURLs narrowedURLs heads siteCategory in
        match r with
        | (_, Some err) => ret ([], Some err)
        | (finalResults, None) =>
          let* finalResults := check_loop finalResults in
          ret (finalResults, None)
        end
      end
    end
  end.

End Package.

(** ** The earlier revision under internal/discovery

    [internal/discovery/service.go] reads only a URL set and stores the
    head section as it is. *)
Module Prev.
Section Package.
Context `{GoLib} `{World}.

Definition getURLsFromSitemap (siteURL : gostring) : M (list gostring * option error) :=
  let sitemapURL := siteURL ++ str "/sitemap.xml" in
  let* r := lift (http_Get sitemapURL) in
  match r with
  | HttpErr msg => ret ([], Some (ErrFetchSitemap msg))
  | HttpOk resp =>
    if negb (StatusCode resp =? 200)
    then ret ([], Some (ErrSitemapStatus (StatusCode resp)))
    else
      match mbind etree_ReadFrom (Body resp) with
      | None => ret ([], Some ErrParseSitemapXML)
      | Some doc =>
        match SelectElement doc (str "urlset") with
        | None => ret ([], Some ErrInvalidSitemapFormat)
        | Some urlset =>
          ret (urlset_loop (SelectElements (Child urlset) (str "url")), None)
        end
      end
  end.

Definition extractHeads_step (heads : gmap gostring gostring) (url : gostring)
  : M (gmap gostring gostring) :=
  let* r := lift (http_Get url) in
  match r with
  | HttpErr msg =>
    let* _ := effect (fmt_Printf (LogGetURL url msg)) in
    ret (<[url := []]> heads)
  | HttpOk resp =>
    match Body resp with
    | None =>
      let* _ := effect (fmt_Printf (LogReadBody url)) in
      ret (<[url := []]> heads)
    | Some bodyString =>
      let headStart := Index bodyString (str "<head>") in
      let headEnd := Index bodyString (str "</head>") in
      let* heads' :=
        (if negb (headStart =? -1) && negb (headEnd =? -1) then
           let* headContent :=
             pure_run (slice bodyString (headStart + len (str "<head>")) headEnd) in
           ret (<[url := headContent]> heads)
         else ret (<[url := []]> heads)) in
      let* _ := effect (time_Sleep 100) in
      ret heads'
    end
  end.

Fixpoint extractHeads_loop (urls : list gostring) (heads : gmap gostring gostring)
  : M (gmap gostring gostring) :=
  match urls with
  | [] => ret heads
  | url :: rest =>
    let* heads' := extractHeads_step heads url in
    extractHeads_loop rest heads'
  end.

Definition extractHeads (urls : list gostring)
  : M (gmap gostring gostring * option error) :=
  let* heads := extractHeads_loop urls ∅ in
  ret (heads, None).

(** [strings.Split] for a separator that is not empty. *)
Fixpoint Split_loop (fuel : nat) (s sep : gostring) : list gostring :=
  match fuel with
  | O => [s]
  | S fuel' =>
    let i := Index s sep in
    if i <? 0 then [s]
    else take (Z.to_nat i) s :: Split_loop fuel' (drop (Z.to_nat i + length sep) s) sep
  end.

Definition Split (s sep : gostring) : list gostring := Split_loop (length s) s sep.

Definition splitAndTrim (s sep : gostring) : list gostring :=
  map TrimSpace (Split s sep).

Definition parseCommaSeparated (input : gostring) : list gostring :=
  splitAndTrim input (str ",").

Definition narrow_prompt (urls : list gostring) (siteCategory : gostring) : gostring :=
  str "From the following list of URLs, select the 15 most relevant URLs for a site with the category '"
  ++ siteCategory ++ str "'." ++ nl ++ nl ++ str "URLs:" ++ nl
  ++ Join urls nl ++ nl ++ nl
  ++ str "Return a comma-separated list of the 15 selected URLs.".

(** The first call of the earlier revision: the answer is split at the
    commas, and no answer is malformed. *)
Definition NarrowDownURLs (urls : list gostring) (siteCategory : gostring)
  : M (list gostring * option error) :=
  let prompt := narrow_prompt urls siteCategory in
  let* resp := lift (llm_GenerateContent (mkLLMRequest prompt 2048 [] false)) in
  match resp with
  | LLMErr => ret ([], Some ErrCallLLM)
  | LLMChoices [] => panic
  | LLMChoices (content :: _) => ret (parseCommaSeparated content, None)
  end.

End Package.
End Prev.

(** * The first revision of the service (service.go)

    [Discover] reads one URL set and checks every page of it; there is
    no index, no sampling and no curation yet. *)
Module First.
Section Package.
Context `{GoLib} `{World}.

(** The loop over the [<url>] children. *)
Fixpoint results_loop (urlElements : list Element) (results : list Result)
  : M (list Result) :=
  match urlElements with
  | [] => ret results
  | urlElement :: rest =>
    match SelectElement (Child urlElement) (str "loc") with
    | None => results_loop rest results
    | Some loc =>
      let pageURL := Text loc in
      let* status := checkURLStatus pageURL in
      let results := results ++ [mkResult pageURL status (str "sitemap")] in
      let* _ := effect (time_Sleep 100) in
      results_loop rest results
    end
  end.

Definition Discover (siteURL : gostring) : M (list Result * option error) :=
  let sitemapURL := siteURL ++ str "/sitemap.xml" in
  let* r := lift (http_Get sitemapURL) in
  match r with
  | HttpErr msg => ret ([], Some (ErrFetchSitemap msg))
  | HttpOk resp =>
    if negb (StatusCode resp =? 200)
    then ret ([], Some (ErrSitemapStatus (StatusCode resp)))
    else
      match mbind etree_ReadFrom (Body resp) with
      | None => ret ([], Some ErrParseSitemapXML)
      | Some doc =>
        match SelectElement doc (str "urlset") with
        | None => ret ([], Some ErrInvalidSitemapFormat)
        | Some urlset =>
          let* results :=
            results_loop (SelectElements (Child urlset) (str "url")) [] in
          ret (results, None)
        end
      end
  end.

End Package.
End First.

(** JSON white space. *)
Definition json_space (c : ascii) : bool :=
  let n := byte_of c in ((n =? 32) || (n =? 9) || (n =? 10) || (n =? 13))%N.

(** ** A reference instance of the libraries and of the world

    Small executable stand-ins, used to run the package on concrete
    inputs. The JSON decoder follows encoding/json on the documents the
    package expects: keys are matched without regard to ASCII case,
    unknown keys are skipped, [null] leaves a field as it is, and a value
    of another type is an error. Surrogate pairs in [\u] escapes are not
    combined and bytes above ASCII are kept as they are. *)
Module Ref.

#[warnings="-register-all"]
Inductive json : Type :=
| JNull
| JBool (b : bool)
| JNumber (lit : gostring)
| JString (s : gostring)
| JArray (elems : list json)
| JObject (members : list (gostring * json)).

Fixpoint skip_ws (s : gostring) : gostring :=
  match s with
  | c :: cs => if json_space c then skip_ws cs else s
  | [] => []
  end.

Definition json_trim (s : gostring) : gostring := rev (skip_ws (rev (skip_ws s))).

Definition hex_val (c : ascii) : option N :=
  let n := byte_of c in
  if ((48 <=? n) && (n <=? 57))%N then Some (n - 48)%N
  else if ((97 <=? n) && (n <=? 102))%N then Some (n - 87)%N
  else if ((65 <=? n) && (n <=? 70))%N then Some (n - 55)%N
  else None.

Definition hex4 (a b c d : ascii) : option N :=
  match hex_val a, hex_val b, hex_val c, hex_val d with
  | Some x, Some y, Some z, Some t => Some (((x * 16 + y) * 16 + z) * 16 + t)%N
  | _, _, _, _ => None
  end.

(** The body of a string literal, after the opening quote; [acc] is what
    was read, reversed. *)
Fixpoint parse_string (s acc : gostring) : option (gostring * gostring) :=
  match s with
  | [] => None
  | c :: cs =>
    if Ascii.eqb c dquote then Some (rev acc, cs)
    else if (byte_of c <? 32)%N then None
    else if Ascii.eqb c "\" then
      match cs with
      | [] => None
      | e :: cs' =>
        if Ascii.eqb e dquote || Ascii.eqb e "\" || Ascii.eqb e "/"
        then parse_string cs' (e :: acc)
        else if Ascii.eqb e "b" then parse_string cs' (byte_chr 8 :: acc)
        else if Ascii.eqb e "f" then parse_string cs' (byte_chr 12 :: acc)
        else if Ascii.eqb e "n" then parse_string cs' (byte_chr 10 :: acc)
        else if Ascii.eqb e "r" then parse_string cs' (byte_chr 13 :: acc)
        else if Ascii.eqb e "t" then parse_string cs' (byte_chr 9 :: acc)
        else if Ascii.eqb e "u" then
          match cs' with
          | h1 :: h2 :: h3 :: h4 :: cs'' =>
            match hex4 h1 h2 h3 h4 with
            | Some r => parse_string cs'' (rev (encode_rune r) ++ acc)
            | None => None
            end
          | _ => None
          end
        else None
      end
    else parse_string cs (c :: acc)
  end.

Definition is_digit (c : ascii) : bool := in_range 48 57 c.

Fixpoint span_digits (s : gostring) : gostring * gostring :=
  match s with
  | c :: cs =>
    if is_digit c then let '(ds, rest) := span_digits cs in (c :: ds, rest)
    else ([], s)
  | [] => ([], [])
  end.

Definition parse_int_part (s : gostring) : option (gostring * gostring) :=
  match s with
  | c :: cs =>
    if Ascii.eqb c "0" then Some ([c], cs)
    else if is_digit c then let '(ds, rest) := span_digits cs in Some (c :: ds, rest)
    else None
  | [] => None
  end.

Definition parse_frac_part (s : gostring) : option (gostring * gostring) :=
  match s with
  | c :: cs =>
    if Ascii.eqb c "." then
      match span_digits cs with
      | ([], _) => None
      | (ds, rest) => Some (c :: ds, rest)
      end
    else Some ([], s)
  | [] => Some ([], [])
  end.

Definition parse_exp_part (s : gostring) : option (gostring * gostring) :=
  match s with
  | c :: cs =>
    if Ascii.eqb c "e" || Ascii.eqb c "E" then
      let '(sign, cs') :=
        match cs with
        | g :: t => if Ascii.eqb g "+" || Ascii.eqb g "-" then ([g], t) else ([], cs)
        | [] => ([], cs)
        end in
      match span_digits cs' with
      | ([], _) => None
      | (ds, rest) => Some (c :: sign ++ ds, rest)
      end
    else Some ([], s)
  | [] => Some ([], [])
  end.

Definition parse_number (s : gostring) : option (gostring * gostring) :=
  let '(sign, s1) :=
    match s with
    | c :: cs => if Ascii.eqb c "-" then ([c], cs) else ([], s)
    | [] => ([], s)
    end in
  '(i, s2) ← parse_int_part s1;
  '(f, s3) ← parse_frac_part s2;
  '(e, s4) ← parse_exp_part s3;
  Some (sign ++ i ++ f ++ e, s4).

(** The elements of an array after the first bracket, [pv] reading one
    value. *)
Fixpoint parse_elems (pv : gostring -> option (json * gostring)) (fuel : nat)
    (s : gostring) (acc : list json) : option (list json * gostring) :=
  match fuel with
  | O => None
  | S fuel' =>
    '(v, rest) ← pv s;
    match skip_ws rest with
    | c :: rest' =>
      if Ascii.eqb c "," then parse_elems pv fuel' rest' (v :: acc)
      else if Ascii.eqb c "]" then Some (rev (v :: acc), rest')
      else None
    | [] => None
    end
  end.

(** The members of an object after the first brace. *)
Fixpoint parse_members (pv : gostring -> option (json * gostring)) (fuel : nat)
    (s : gostring) (acc : list (gostring * json))
  : option (list (gostring * json) * gostring) :=
  match fuel with
  | O => None
  | S fuel' =>
    match skip_ws s with
    | q :: s1 =>
      if Ascii.eqb q dquote then
        '(key, s2) ← parse_string s1 [];
        match skip_ws s2 with
        | c :: s3 =>
          if Ascii.eqb c ":" then
            '(v, rest) ← pv s3;
            match skip_ws rest with
            | d :: rest' =>
              if Ascii.eqb d "," then parse_members pv fuel' rest' ((key, v) :: acc)
              else if Ascii.eqb d "}" then Some (rev ((key, v) :: acc), rest')
              else None
            | [] => None
            end
          else None
        | [] => None
        end
      else None
    | [] => None
    end
  end.

Fixpoint parse_value (fuel : nat) (s : gostring) : option (json * gostring) :=
  match fuel with
  | O => None
  | S fuel' =>
    match skip_ws s with
    | [] => None
    | c :: rest =>
      if Ascii.eqb c "[" then
        match skip_ws rest with
        | d :: rest' =>
          if Ascii.eqb d "]" then Some (JArray [], rest')
          else '(vs, r) ← parse_elems (parse_value fuel') fuel' rest []; Some (JArray vs, r)
        | [] => None
        end
      else if Ascii.eqb c "{" then
        match skip_ws rest with
        | d :: rest' =>
          if Ascii.eqb d "}" then Some (JObject [], rest')
          else '(ms, r) ← parse_members (parse_value fuel') fuel' rest []; Some (JObject ms, r)
        | [] => None
        end
      else if Ascii.eqb c dquote then
        '(x, r) ← parse_string rest []; Some (JString x, r)
      else if HasPrefix (c :: rest) (str "null") then Some (JNull, drop 4 (c :: rest))
      else if HasPrefix (c :: rest) (str "true") then Some (JBool true, drop 4 (c :: rest))
      else if HasPrefix (c :: rest) (str "false") then Some (JBool false, drop 5 (c :: rest))
      else '(lit, r) ← parse_number (c :: rest); Some (JNumber lit, r)
    end
  end.

(** A whole text: one value with white space around it. *)
Definition parse (s : gostring) : option json :=
  let s := json_trim s in
  match parse_value (S (length s)) s with
  | Some (v, []) => Some v
  | _ => None
  end.

Definition decode_string (v : json) : option gostring :=
  match v with
  | JString x => Some x
  | JNull => Some []
  | _ => None
  end.

Definition decode_strings (v : json) : option (list gostring) :=
  match v with
  | JNull => Some []
  | JArray elems => mapM decode_string elems
  | _ => None
  end.

Definition fold_key (k : gostring) : gostring := map lower_byte k.

Definition set_field (r : Result) (member : gostring * json) : option Result :=
  let '(k, v) := member in
  if bool_decide (fold_key k = str "url") then
    match v with
    | JString x => Some (mkResult x (Status r) (Category r))
    | JNull => Some r
    | _ => None
    end
  else if bool_decide (fold_key k = str "status") then
    match v with
    | JString x => Some (mkResult (URL r) x (Category r))
    | JNull => Some r
    | _ => None
    end
  else if bool_decide (fold_key k = str "category") then
    match v with
    | JString x => Some (mkResult (URL r) (Status r) x)
    | JNull => Some r
    | _ => None
    end
  else Some r.

Definition decode_result (v : json) : option Result :=
  match v with
  | JNull => Some (mkResult [] [] [])
  | JObject members =>
    foldl (fun acc member => r ← acc; set_field r member)
          (Some (mkResult [] [] [])) members
  | _ => None
  end.

Definition decode_results (v : json) : option (list Result) :=
  match v with
  | JNull => Some []
  | JArray elems => mapM decode_result elems
  | _ => None
  end.

Definition Unmarshal_strings (s : gostring) : option (list gostring) :=
  parse s ≫= decode_strings.

Definition Unmarshal_results (s : gostring) : option (list Result) :=
  parse s ≫= decode_results.

(** *** A reader for plain XML

    Elements, character data, a prolog and comments without [>]; no
    attributes values containing [>], no entities. *)

Inductive xml_token : Type :=
| XOpen (name : gostring)
| XClose (name : gostring)
| XText (data : gostring).

Fixpoint tag_name (s : gostring) : gostring :=
  match s with
  | c :: cs => if json_space c || Ascii.eqb c "/" then [] else c :: tag_name cs
  | [] => []
  end.

Definition tokens_of_tag (body : gostring) : list xml_token :=
  match body with
  | c :: cs =>
    if Ascii.eqb c "/" then [XClose (tag_name cs)]
    else if Ascii.eqb c "?" || Ascii.eqb c "!" then []
    else if HasSuffix body (str "/") then [XOpen (tag_name body); XClose (tag_name body)]
    else [XOpen (tag_name body)]
  | [] => []
  end.

Definition tokens_of_text (data : gostring) : list xml_token :=
  match data with
  | [] => []
  | _ => [XText data]
  end.

(** [acc] is the tag or the text being read, reversed. *)
Fixpoint xml_tokens (s : gostring) (intag : bool) (acc : gostring)
  : option (list xml_token) :=
  match s with
  | [] => if intag then None else Some (tokens_of_text (rev acc))
  | c :: cs =>
    if intag then
      if Ascii.eqb c ">" then (tokens_of_tag (rev acc) ++.) <$> xml_tokens cs false []
      else xml_tokens cs true (c :: acc)
    else
      if Ascii.eqb c "<" then (tokens_of_text (rev acc) ++.) <$> xml_tokens cs true []
      else xml_tokens cs false (c :: acc)
  end.

(** An element being read: its name, its leading text and its children
    so far, reversed. *)
Record frame : Type := mkFrame {
  frame_name : gostring;
  frame_text : gostring;
  frame_children : list Element
}.

Definition close_frame (f : frame) : Element :=
  let '(space, tag) := spaceDecompose (frame_name f) in
  Elem space tag (frame_text f) (rev (frame_children f)).

Definition add_child (e : Element) (f : frame) : frame :=
  mkFrame (frame_name f) (frame_text f) (e :: frame_children f).

Definition add_text (data : gostring) (f : frame) : frame :=
  match frame_children f with
  | [] => mkFrame (frame_name f) (frame_text f ++ data) []
  | _ => f
  end.

Fixpoint build (toks : list xml_token) (stack : list frame) (roots : list Element)
  : option Document :=
  match toks with
  | [] => match stack with [] => Some (rev roots) | _ => None end
  | XOpen name :: rest => build rest (mkFrame name [] [] :: stack) roots
  | XText data :: rest =>
    match stack with
    | f :: stack' => build rest (add_text data f :: stack') roots
    | [] => build rest [] roots
    end
  | XClose name :: rest =>
    match stack with
    | f :: stack' =>
      if bool_decide (frame_name f = name) then
        match stack' with
        | parent :: stack'' => build rest (add_child (close_frame f) parent :: stack'') roots
        | [] => build rest [] (close_frame f :: roots)
        end
      else None
    | [] => None
    end
  end.

Definition ReadFrom (s : gostring) : option Document :=
  toks ← xml_tokens s false []; build toks [] [].

(** *** Sorting by length, by insertion *)

Fixpoint insert_by_len (x : gostring) (l : list gostring) : list gostring :=
  match l with
  | [] => [x]
  | y :: l' => if (length x <=? length y)%nat then x :: l else y :: insert_by_len x l'
  end.

Definition sort_by_len (l : list gostring) : list gostring :=
  foldr insert_by_len [] l.

(** *** An excerpt of the lower-case table of package unicode *)

Definition lower_table (r : N) : N :=
  if ((192 <=? r) && (r <=? 222) && negb (r =? 215))%N then (r + 32)%N
  else if (r =? 304)%N then 105%N
  else if ((913 <=? r) && (r <=? 937) && negb (r =? 930))%N then (r + 32)%N
  else if ((1024 <=? r) && (r <=? 1039))%N then (r + 80)%N
  else if ((1040 <=? r) && (r <=? 1071))%N then (r + 32)%N
  else if (r =? 8490)%N then 107%N
  else if (r =? 8491)%N then 229%N
  else r.

(** The reference does not inflate: it only looks at the magic number. *)
Definition gunzip_magic (s : gostring) : gzip_result :=
  match s with
  | a :: b :: _ =>
    if ((byte_of a =? 31) && (byte_of b =? 139))%N then GzipCorrupt else GzipBadHeader
  | _ => GzipBadHeader
  end.

Definition lib : GoLib := {|
  unicode_lower_table := lower_table;
  sort_Slice_by_len := sort_by_len;
  json_Unmarshal_strings := Unmarshal_strings;
  json_Unmarshal_results := Unmarshal_results;
  etree_ReadFrom := ReadFrom;
  gzip_decode := gunzip_magic
|}.

(** A world whose network and text-generation service answer by a fixed
    table and whose state counts the random draws. *)
Definition world (get : gostring -> http_result) (llm : LLMRequest -> llm_result)
  : World := {|
  W := nat;
  http_Get url w := (get url, w);
  llm_GenerateContent req w := (llm req, w);
  rand_Seed_now w := w;
  rand_draw w := ((w * 7 + 3)%nat, S w);
  fmt_Printf _ w := w;
  time_Sleep _ w := w
|}.

Definition ok_response (body : gostring) : http_result :=
  HttpOk (mkResponse 200 (str "200 OK") [] (Some body)).

End Ref.

(** * Notions used to state the properties *)

Section Notions.
Context `{GoLib} `{World}.

(** In world [w] a request for [sitemapURL] is answered with status 200
    and a payload that reads as [doc], leaving world [w']. *)
Definition serves (sitemapURL : gostring) (doc : Document) (w w' : W) : Prop :=
  exists resp, http_Get sitemapURL w = (HttpOk resp, w') /\
               StatusCode resp = 200 /\
               read_sitemap sitemapURL resp = inl doc.

(** The same for the earlier revision, which reads the body as it is. *)
Definition serves_plain (sitemapURL : gostring) (doc : Document) (w w' : W) : Prop :=
  exists resp body, http_Get sitemapURL w = (HttpOk resp, w') /\
                    StatusCode resp = 200 /\
                    Body resp = Some body /\ etree_ReadFrom body = Some doc.

(** A document whose root is [<urlset>]. *)
Definition urlset_document (doc : Document) (urlset : Element) : Prop :=
  doc = [urlset] /\ Tag urlset = str "urlset".

(** A document whose root is [<sitemapindex>]. *)
Definition index_document (doc : Document) (sitemapIndex : Element) : Prop :=
  doc = [sitemapIndex] /\ Tag sitemapIndex = str "sitemapindex".

Definition url_entries (urlset : Element) : list Element :=
  SelectElements (Child urlset) (str "url").

Definition loc_children (e : Element) : list Element :=
  SelectElements (Child e) (str "loc").

(** The [<loc>] entries of a URL set, in document order. *)
Definition loc_entries (urlset : Element) : list Element :=
  flat_map loc_children (url_entries urlset).

(** Every [<url>] entry has one [<loc>] at most. *)
Definition well_formed_urlset (urlset : Element) : Prop :=
  Forall (fun u => (length (loc_children u) <= 1)%nat) (url_entries urlset).

(** The locations an index refers to, in document order. *)
Definition sub_locations (sitemapIndex : Element) : list gostring :=
  omap (fun e => Text <$> SelectElement (Child e) (str "loc"))
       (SelectElements (Child sitemapIndex) (str "sitemap")).

(** Resolving the locations one after the other from world [w] succeeds
    for each of them, with these URL lists, and leaves world [w']. *)
Inductive resolves_all (resolve : gostring -> M (list gostring * option error))
  : list gostring -> W -> list (list gostring) -> W -> Prop :=
| resolves_nil w : resolves_all resolve [] w [] w
| resolves_cons loc locs urls rest w w1 w2 :
    resolve loc w = Ret ((urls, None), w1) ->
    resolves_all resolve locs w1 rest w2 ->
    resolves_all resolve (loc :: locs) w (urls :: rest) w2.

(** The loop of the index over the locations alone. *)
Fixpoint locations_loop (resolve : gostring -> M (list gostring * option error))
    (locs : list gostring) (urls : list gostring) : M (list gostring) :=
  match locs with
  | [] => ret urls
  | loc :: rest =>
    let* r := resolve loc in
    match r with
    | (_, Some err) =>
      let* _ := effect (fmt_Printf (LogSubSitemap loc err)) in
      locations_loop resolve rest urls
    | (subSitemapURLs, None) => locations_loop resolve rest (urls ++ subSitemapURLs)
    end
  end.

(** A text that is an opening bracket, anything and a closing bracket,
    with JSON white space around: every JSON array text is one. *)
Definition json_array_text (t : gostring) : Prop :=
  exists lead mid trail,
    t = lead ++ str "[" ++ mid ++ str "]" ++ trail /\
    forallb json_space lead = true /\ forallb json_space trail = true.

(** The text inside a markdown code fence. *)
Definition fenced (t : gostring) : gostring :=
  fence_open ++ nl ++ t ++ nl ++ fence_close.

(** A decoder that skips JSON white space around the text, as
    [json.Unmarshal] does. *)
Definition ignores_json_space {A} (decode : gostring -> option A) : Prop :=
  forall lead s trail,
    forallb json_space lead = true -> forallb json_space trail = true ->
    decode (lead ++ s ++ trail) = decode s.

(** The requests of the two curation calls. *)
Definition narrow_request (urls : list gostring) (siteCategory : gostring) : LLMRequest :=
  mkLLMRequest (narrow_prompt urls siteCategory) 12048 (str "gemini-2.5-flash") true.

Definition select_request (urls : list gostring) (heads : gmap gostring gostring)
    (siteCategory : gostring) : LLMRequest :=
  mkLLMRequest (select_prompt urls heads siteCategory) 14096 (str "gemini-2.5-flash") true.

(** A response without the markers of a code fence. *)
Definition unfenced (content : gostring) : gostring :=
  TrimSuffix (TrimPrefix content fence_open) fence_close.

(** The response of the first call does not decode as a list of strings. *)
Definition unparseable_urls (content : gostring) : Prop :=
  json_Unmarshal_strings (TrimSpace (unfenced content)) = None.

(** The response of the second call does not decode as a list of results. *)
Definition unparseable_results (content : gostring) : Prop :=
  json_Unmarshal_results (unfenced content) = None.

(** The run of [Discover] from world [w] reaches a curation call that is
    answered, in world [w'], with a response that does not parse: the
    first call, or the second one. *)
Definition meets_unparseable_response (fuel : nat) (siteURL siteCategory : gostring)
    (w w' : W) : Prop :=
  (exists urls w1 sample w2 content more,
      getURLsFromSitemap fuel siteURL w = Ret ((urls, None), w1) /\
      sampleUrls siteURL urls w1 = Ret (sample, w2) /\
      llm_GenerateContent (narrow_request sample siteCategory) w2
        = (LLMChoices (content :: more), w') /\
      unparseable_urls content)
  \/
  (exists urls w1 sample w2 narrowed w3 heads w4 content more,
      getURLsFromSitemap fuel siteURL w = Ret ((urls, None), w1) /\
      sampleUrls siteURL urls w1 = Ret (sample, w2) /\
      NarrowDownURLs sample siteCategory w2 = Ret ((narrowed, None), w3) /\
      extractHeads narrowed w3 = Ret ((heads, None), w4) /\
      llm_GenerateContent (select_request narrowed heads siteCategory) w4
        = (LLMChoices (content :: more), w') /\
      unparseable_results content).

(** [sub] does not occur in [s]. *)
Definition lacks (s sub : gostring) : Prop :=
  forall pre post, s <> pre ++ sub ++ post.

(** U+0130, the dotted capital I, in UTF-8. *)
Definition dotted_I : gostring := [byte_chr 196; byte_chr 176].

(** A head section with a Turkish title before a script. *)
Definition istanbul_head : gostring :=
  str "<title>" ++ dotted_I
  ++ str "stanbul</title><script>var a=1;</script><meta charset='utf-8'>".

(** What is left of it: the end of the closing title tag is gone. *)
Definition istanbul_cleaned : gostring :=
  str "<title>" ++ dotted_I ++ str "stanbul</title<meta charset='utf-8'>".

(** What the package relies on from [sort.Slice]: the result is a
    rearrangement of the input in which no element is longer than its
    successor. *)
Definition sort_contract (sort : list gostring -> list gostring) : Prop :=
  forall l, Permutation (sort l) l /\
            Sorted (fun a b => (length a <= length b)%nat) (sort l).

(** The first occurrence of [sub] in [s] is after [pre]. *)
Definition first_occurrence (s sub pre post : gostring) : Prop :=
  s = pre ++ sub ++ post /\
  forall pre' post', s = pre' ++ sub ++ post' -> (length pre <= length pre')%nat.

(** U+212A, the Kelvin sign, in UTF-8. *)
Definition kelvin_sign : gostring := [byte_chr 226; byte_chr 132; byte_chr 170].

End Notions.

(** The statement that a successful run returns ten results at most,
    whatever the libraries and the world. *)
Definition at_most_ten_results : Prop :=
  forall (L : GoLib) (Wd : World) (fuel : nat) (siteURL siteCategory : gostring)
         (w w' : @W Wd) (results : list Result),
    @Discover L Wd fuel siteURL siteCategory w = Ret ((results, None), w') ->
    (length results <= 10)%nat.

(** * Further notions *)

Section MoreNotions.
Context `{GoLib} `{World}.

(** The string has a block of the tag: an opening of the tag, later a
    [>], and later the closing tag, whatever the case of the letters. *)
Definition has_block (s tagName : gostring) : Prop :=
  exists a b c d,
    map lower_byte s
    = a ++ map lower_byte (str "<" ++ tagName) ++ b ++ str ">" ++ c
        ++ map lower_byte (str "</" ++ tagName ++ str ">") ++ d.

(** The byte does not occur in the string. *)
Definition free_of (c : ascii) (s : gostring) : Prop := ~ In c s.

(** The number of commas of a string. *)
Definition commas (s : gostring) : nat :=
  length (List.filter (fun c => Ascii.eqb c ",") s).

(** A string that starts and ends with an ASCII byte that is not white
    space, as a URL does. *)
Definition trimmed (u : gostring) : Prop :=
  (exists c rest, u = c :: rest /\ is_ascii_byte c = true /\ asciiSpace c = false) /\
  (exists front d, u = front ++ [d] /\ is_ascii_byte d = true /\ asciiSpace d = false).

(** A text inside a code fence that does not name a language. *)
Definition plain_fenced (t : gostring) : gostring :=
  fence_close ++ nl ++ t ++ nl ++ fence_close.

(** A decoder that rejects every text that starts with a backquote, as
    [json.Unmarshal] does. *)
Definition rejects_backquote {A} (decode : gostring -> option A) : Prop :=
  forall s, decode (str "`" ++ s) = None.

(** The run of [Discover] from world [w] reaches a curation call that is
    answered with [answer], leaving world [w']: the first call, or the
    second. *)
Definition meets_answer (answer : llm_result) (fuel : nat)
    (siteURL siteCategory : gostring) (w w' : W) : Prop :=
  (exists urls w1 sample w2,
      getURLsFromSitemap fuel siteURL w = Ret ((urls, None), w1) /\
      sampleUrls siteURL urls w1 = Ret (sample, w2) /\
      llm_GenerateContent (narrow_request sample siteCategory) w2 = (answer, w'))
  \/
  (exists urls w1 sample w2 narrowed w3 heads w4,
      getURLsFromSitemap fuel siteURL w = Ret ((urls, None), w1) /\
      sampleUrls siteURL urls w1 = Ret (sample, w2) /\
      NarrowDownURLs sample siteCategory w2 = Ret ((narrowed, None), w3) /\
      extractHeads narrowed w3 = Ret ((heads, None), w4) /\
      llm_GenerateContent (select_request narrowed heads siteCategory) w4 = (answer, w')).

(** An entry as the curation service returns it: without a status. *)
Definition clear_status (r : Result) : Result := mkResult (URL r) [] (Category r).

(** The text of the first [<loc>] of every [<url>] entry that has one,
    in document order. *)
Definition first_locations (urlset : Element) : list gostring :=
  omap (fun u => Text <$> head (loc_children u)) (url_entries urlset).

(** The network is down: every request fails. *)
Definition network_down : Prop :=
  forall url w, exists msg w', http_Get url w = (HttpErr msg, w').



End MoreNotions.


(** ** Concrete sites, used to run the package *)
Module Demo.

Definition site : gostring := str "https://ex.org".
Definition index_site : gostring := str "https://idx.ex.org".
Definition large_site : gostring := str "https://big.ex.org".

Definition urlset_xml : gostring :=
  str "<?xml version='1.0' encoding='UTF-8'?><urlset xmlns='http://www.sitemaps.org/schemas/sitemap/0.9'><url><loc>https://ex.org/</loc></url><url><loc>https://ex.org/about</loc><lastmod>2024-01-01</lastmod></url><url><loc>https://ex.org/news</loc></url></urlset>".

Definition index_xml : gostring :=
  str "<sitemapindex><sitemap><loc>https://idx.ex.org/a.xml</loc></sitemap><sitemap><loc>https://idx.ex.org/b.xml</loc></sitemap><sitemap><loc>https://idx.ex.org/c.xml</loc></sitemap></sitemapindex>".

Definition a_xml : gostring :=
  str "<urlset><url><loc>https://idx.ex.org/a1</loc></url><url><loc>https://idx.ex.org/a2</loc></url></urlset>".

Definition c_xml : gostring :=
  str "<urlset><url><loc>https://idx.ex.org/c1</loc></url></urlset>".

(** Twelve pages of the large site. *)
Definition pages : list gostring :=
  map (fun c => str "https://big.ex.org/" ++ [c]) (str "abcdefghijkl").

Definition large_xml : gostring :=
  str "<urlset>"
  ++ flat_map (fun u => str "<url><loc>" ++ u ++ str "</loc></url>") pages
  ++ str "</urlset>".

Definition plain_page : gostring :=
  str "<html><head><title>T</title><script>var x=1;</script></head><body></body></html>".

Definition upper_page : gostring :=
  str "<HTML><HEAD><TITLE>T</TITLE></HEAD><BODY></BODY></HTML>".

Definition attr_page : gostring :=
  qstr "<html><head lang='en'><title>T</title></head><body></body></html>".

Definition reversed_page : gostring := str "</head><head>".

Definition get (url : gostring) : http_result :=
  if bool_decide (url = site ++ str "/sitemap.xml") then Ref.ok_response urlset_xml
  else if bool_decide (url = index_site ++ str "/sitemap.xml") then Ref.ok_response index_xml
  else if bool_decide (url = str "https://idx.ex.org/a.xml") then Ref.ok_response a_xml
  else if bool_decide (url = str "https://idx.ex.org/b.xml")
  then HttpOk (mkResponse 404 (str "404 Not Found") [] (Some []))
  else if bool_decide (url = str "https://idx.ex.org/c.xml") then Ref.ok_response c_xml
  else if bool_decide (url = large_site ++ str "/sitemap.xml") then Ref.ok_response large_xml
  else if bool_decide (url = str "https://ex.org/upper") then Ref.ok_response upper_page
  else if bool_decide (url = str "https://ex.org/attr") then Ref.ok_response attr_page
  else if bool_decide (url = str "https://ex.org/reversed") then Ref.ok_response reversed_page
  else Ref.ok_response plain_page.

Definition json_list (urls : list gostring) : gostring :=
  str "[" ++ Join (map (fun u => [dquote] ++ u ++ [dquote]) urls) (str ",") ++ str "]".

Definition json_entry (category url : gostring) : gostring :=
  qstr "{'url':'" ++ url ++ qstr "','category':'" ++ category ++ qstr "'}".

Definition json_entries (category : gostring) (urls : list gostring) : gostring :=
  str "[" ++ Join (map (json_entry category) urls) (str ",") ++ str "]".

(** A service that keeps two pages of the small site. *)
Definition llm_two (req : LLMRequest) : llm_result :=
  if MaxTokens req =? 12048
  then LLMChoices [fenced (json_list [str "https://ex.org/"; str "https://ex.org/news"])]
  else LLMChoices [json_entries (str "test") [str "https://ex.org/"; str "https://ex.org/news"]].

(** A service that keeps the twelve pages and then selects eleven. *)
Definition llm_eleven (req : LLMRequest) : llm_result :=
  if MaxTokens req =? 12048
  then LLMChoices [json_list pages]
  else LLMChoices [json_entries (str "test") (take 11 pages)].

(** A service that answers in prose. *)
Definition llm_prose (req : LLMRequest) : llm_result :=
  LLMChoices [str "Sorry, I cannot select URLs from this list."].


Definition world_two : World := Ref.world get llm_two.
Definition world_eleven : World := Ref.world get llm_eleven.
Definition world_prose : World := Ref.world get llm_prose.

(** 201 URLs of lengths between 16 and 25. *)
Definition many_urls : list gostring :=
  map (fun n => str "https://ex.org/p" ++ replicate (n mod 10) "x"%char) (seq 0 201).

(** The small sitemap as the reference reader reads it. *)
Definition urlset_doc : Document :=
  Eval vm_compute in default [] (Ref.ReadFrom urlset_xml).

Definition urlset_elem : Element :=
  Eval vm_compute in default (Elem [] [] [] []) (head urlset_doc).

Definition index_doc : Document :=
  Eval vm_compute in default [] (Ref.ReadFrom index_xml).

Definition index_elem : Element :=
  Eval vm_compute in default (Elem [] [] [] []) (head index_doc).

Definition small_urls : list gostring :=
  [str "https://ex.org/"; str "https://ex.org/about"; str "https://ex.org/news"].

Definition two_results : list Result :=
  [mkResult (str "https://ex.org/") (str "200 OK") (str "test");
   mkResult (str "https://ex.org/news") (str "200 OK") (str "test")].

Definition eleven_results : list Result :=
  map (fun u => mkResult u (str "200 OK") (str "test")) (take 11 pages).

Definition prose : gostring := str "Sorry, I cannot select URLs from this list.".

Definition a_urls : list gostring :=
  [str "https://idx.ex.org/a1"; str "https://idx.ex.org/a2"].

Definition c_urls : list gostring := [str "https://idx.ex.org/c1"].

Definition ok (body : gostring) : Response :=
  mkResponse 200 (str "200 OK") [] (Some body).

(** The entries the second service selects on the large site. *)
Definition eleven_entries : list Result :=
  map (fun u => mkResult u [] (str "test")) (take 11 pages).

End Demo.

(** ** Further sites and services *)
Module Cases.

(** A network that refuses every connection. *)
Definition refuse (url : gostring) : http_result :=
  HttpErr (str "dial tcp: connection refused").

(** A service that fails every call. *)
Definition llm_down (req : LLMRequest) : llm_result := LLMErr.

(** A service that answers every call without a choice. *)
Definition llm_silent (req : LLMRequest) : llm_result := LLMChoices [].

(** A service that answers inside a fence without a language name. *)
Definition llm_plain_fence (req : LLMRequest) : llm_result :=
  LLMChoices [plain_fenced (Demo.json_list Demo.small_urls)].

(** An index that lists itself. *)
Definition loop_site : gostring := str "https://loop.ex.org".

Definition loop_xml : gostring :=
  str "<sitemapindex><sitemap><loc>https://loop.ex.org/sitemap.xml</loc></sitemap></sitemapindex>".

(** A URL set with an entry of two locations and an entry of none. *)
Definition odd_site : gostring := str "https://odd.ex.org".

Definition odd_xml : gostring :=
  str "<urlset><url><loc>https://odd.ex.org/a</loc><loc>https://odd.ex.org/b</loc></url><url><lastmod>2024-01-01</lastmod></url><url><loc>https://odd.ex.org/c</loc></url></urlset>".

Definition get (url : gostring) : http_result :=
  if bool_decide (url = loop_site ++ str "/sitemap.xml") then Ref.ok_response loop_xml
  else if bool_decide (url = odd_site ++ str "/sitemap.xml") then Ref.ok_response odd_xml
  else Demo.get url.

Definition world_offline : World := Ref.world refuse Demo.llm_two.
Definition world_llm_down : World := Ref.world Demo.get llm_down.
Definition world_silent : World := Ref.world Demo.get llm_silent.
Definition world_more : World := Ref.world get Demo.llm_two.

Definition loop_doc : Document :=
  Eval vm_compute in default [] (Ref.ReadFrom loop_xml).

Definition loop_elem : Element :=
  Eval vm_compute in default (Elem [] [] [] []) (head loop_doc).

Definition odd_doc : Document :=
  Eval vm_compute in default [] (Ref.ReadFrom odd_xml).

Definition odd_elem : Element :=
  Eval vm_compute in default (Elem [] [] [] []) (head odd_doc).





(** The head of the plain page and what the cleanup leaves of it. *)
Definition plain_head : gostring := str "<title>T</title><script>var x=1;</script>".

Definition plain_cleaned : gostring := str "<title>T</title>".

End Cases.

(** * Properties *)

Section Sampler.
Context `{GoLib} `{World}.

(** ** The sampler *)

Lemma len_le_nat {A} (l : list A) (n : nat) : (len l <=? Z.of_nat n) = (length l <=? n)%nat.
Proof.
  unfold len. destruct (Nat.leb_spec (length l) n); [apply Z.leb_le | apply Z.leb_gt]; lia.
Qed.

(** C7. The sampler returns a population of 200 URLs or fewer as it is:
    the same entries in the same order, and the world is not touched. *)
Theorem sampleUrls_small_identity (siteURL : gostring) (urls : list gostring) (w : W) :
  (length urls <= 200)%nat ->
  sampleUrls siteURL urls w = Ret (urls, w).
Proof.
  intros Hle. unfold sampleUrls.
  replace (len urls <=? 200) with true; [reflexivity|].
  symmetry. apply Z.leb_le. unfold len. lia.
Qed.

Lemma swap_in_range (l : list gostring) (i j : nat) :
  (i < length l)%nat -> (j < length l)%nat ->
  exists l', swap l i j = Ret l' /\ Permutation l' l /\ length l' = length l.
Proof.
  intros Hi Hj. unfold swap.
  destruct (lookup_lt_is_Some_2 l i Hi) as [a Ha].
  destruct (lookup_lt_is_Some_2 l j Hj) as [b Hb].
  rewrite Ha, Hb. eexists. split; [reflexivity|]. split.
  - by apply Permutation_insert_swap.
  - by rewrite !length_insert.
Qed.

Lemma shuffle_loop_permutes (i : nat) : forall (l : list gostring) (w : W),
  (i < length l)%nat ->
  exists l' w', shuffle_loop i l w = Ret (l', w') /\ Permutation l' l.
Proof.
  induction i as [|i IH]; intros l w Hi; cbn [shuffle_loop].
  - exists l, w. split; [reflexivity | done].
  - unfold bind at 1. unfold rand_Intn, lift.
    destruct (rand_draw w) as [r w1] eqn:Hdraw.
    assert (Hj : (r mod (S i + 1) < length l)%nat).
    { pose proof (Nat.mod_upper_bound r (S i + 1)). lia. }
    destruct (swap_in_range l (S i) (r mod (S i + 1)) Hi Hj) as (l1 & Hs & Hp & Hlen).
    unfold bind, pure_run. rewrite Hs. simpl.
    destruct (IH l1 w1) as (l2 & w2 & Hrun & Hp2); [lia|].
    exists l2, w2. split; [exact Hrun|]. by rewrite Hp2.
Qed.

Lemma rand_Shuffle_permutes (l : list gostring) (w : W) :
  exists l' w', rand_Shuffle l w = Ret (l', w') /\ Permutation l' l.
Proof.
  unfold rand_Shuffle. destruct l as [|x l].
  - exists [], w. split; [reflexivity | done].
  - apply shuffle_loop_permutes. simpl. lia.
Qed.

Lemma sorted_prefix_below (l1 l2 : list gostring) :
  Sorted (fun a b => (length a <= length b)%nat) (l1 ++ l2) ->
  forall a b, a ∈ l1 -> b ∈ l2 -> (length a <= length b)%nat.
Proof.
  intros Hs. apply Sorted_StronglySorted in Hs; [|intros x y z; lia].
  induction l1 as [|x l1 IH]; intros a b Ha Hb.
  - by apply elem_of_nil in Ha.
  - simpl in Hs. apply StronglySorted_inv in Hs as [Hs Hall].
    apply elem_of_cons in Ha as [->|Ha].
    + rewrite Forall_forall in Hall. apply Hall. apply elem_of_app. by right.
    + by apply IH.
Qed.

(** C2. On a population of more than 200 URLs the sampler returns the 20
    first entries of the population sorted by length, which are no longer
    than any other entry, followed by 180 entries drawn from the others:
    at most 200 in all, and together with the entries left out they are a
    rearrangement of the input, so no entry is duplicated or invented. *)
Theorem sampleUrls_large (siteURL : gostring) (urls : list gostring) (w : W) :
  sort_contract sort_Slice_by_len ->
  (200 < length urls)%nat ->
  exists shortest picked rest w',
    sampleUrls siteURL urls w = Ret (shortest ++ picked, w') /\
    (length (shortest ++ picked) <= 200)%nat /\
    length shortest = 20%nat /\
    (forall a b, a ∈ shortest -> b ∈ picked ++ rest -> (length a <= length b)%nat) /\
    Permutation ((shortest ++ picked) ++ rest) urls.
Proof.
  intros Hsort Hbig.
  destruct (Hsort urls) as [Hperm Hsorted].
  set (sorted := sort_Slice_by_len urls) in *.
  assert (Hlen : length sorted = length urls) by (by apply Permutation_length).
  unfold sampleUrls. fold sorted.
  replace (len urls <=? 200) with false
    by (symmetry; apply Z.leb_gt; unfold len; lia).
  replace (20 <=? len sorted) with true
    by (symmetry; apply Z.leb_le; unfold len; lia).
  replace (0 <? len (drop 20 sorted)) with true
    by (symmetry; apply Z.ltb_lt; unfold len; rewrite length_drop; lia).
  destruct (rand_Shuffle_permutes (drop 20 sorted) (rand_Seed_now w))
    as (shuffled & w' & Hrun & Hshuf).
  assert (Hslen : length shuffled = (length urls - 20)%nat).
  { rewrite (Permutation_length Hshuf), length_drop. lia. }
  unfold bind, effect. rewrite Hrun.
  replace (len shuffled <? 180) with false
    by (symmetry; apply Z.ltb_ge; unfold len; lia).
  exists (take 20 sorted), (take 180 shuffled), (drop 180 shuffled), w'.
  assert (Hl20 : length (take 20 sorted) = 20%nat) by (rewrite length_take; lia).
  assert (Hl180 : length (take 180 shuffled) = 180%nat) by (rewrite length_take; lia).
  split; [reflexivity|]. split; [rewrite length_app; lia|]. split; [exact Hl20|]. split.
  - intros a b Ha Hb. rewrite take_drop in Hb. rewrite Hshuf in Hb.
    apply (sorted_prefix_below (take 20 sorted) (drop 20 sorted)); [|done..].
    by rewrite take_drop.
  - rewrite <- app_assoc, take_drop, Hshuf, take_drop. exact Hperm.
Qed.

End Sampler.

Section Sitemap.
Context `{GoLib} `{World}.

(** ** Sitemap resolution *)

Lemma find_head_filter {A} (f : A -> bool) (l : list A) :
  find f l = head (List.filter f l).
Proof.
  induction l as [|x l IH]; simpl; [reflexivity|]. destruct (f x); simpl; auto.
Qed.

Lemma urlset_loop_first_loc (entries : list Element) :
  urlset_loop entries
  = flat_map (fun u => match SelectElement (Child u) (str "loc") with
                       | Some loc => [Text loc]
                       | None => []
                       end) entries.
Proof.
  unfold urlset_loop.
  set (f := fun (urls : list gostring) (u : Element) => _).
  set (g := fun u : Element => _).
  assert (Hacc : forall acc, foldl f acc entries = acc ++ flat_map g entries).
  { induction entries as [|u entries IH]; intros acc; simpl.
    - by rewrite app_nil_r.
    - rewrite IH. unfold f, g. destruct (SelectElement (Child u) (str "loc")); simpl.
      + by rewrite <- app_assoc.
      + reflexivity. }
  apply Hacc.
Qed.

Lemma urlset_loop_all_locs (entries : list Element) :
  Forall (fun u => (length (loc_children u) <= 1)%nat) entries ->
  urlset_loop entries = map Text (flat_map loc_children entries).
Proof.
  intros Hwf. rewrite urlset_loop_first_loc.
  induction Hwf as [|u entries Hu _ IH]; simpl; [reflexivity|].
  rewrite map_app, <- IH. f_equal.
  unfold SelectElement. rewrite find_head_filter.
  unfold loc_children, SelectElements in Hu |- *.
  destruct (List.filter _ (Child u)) as [|x [|y l]]; simpl in *; [reflexivity..|lia].
Qed.

Lemma urlset_document_select (doc : Document) (urlset : Element) :
  urlset_document doc urlset ->
  SelectElement doc (str "sitemapindex") = None /\
  SelectElement doc (str "urlset") = Some urlset.
Proof.
  intros [-> Htag]. unfold SelectElement. simpl. unfold tag_matches. simpl.
  rewrite Htag. split; reflexivity.
Qed.

(** C6. When the sitemap of the site is served as a document whose root
    is a URL set in which every [<url>] entry has one [<loc>] at most,
    resolution returns the text of every [<loc>] entry, in document order
    and without an error: as many URLs as there are [<loc>] entries. *)
Theorem getURLsFromSitemap_urlset (fuel : nat) (siteURL : gostring)
    (doc : Document) (urlset : Element) (w w' : W) :
  serves (siteURL ++ str "/sitemap.xml") doc w w' ->
  urlset_document doc urlset ->
  well_formed_urlset urlset ->
  getURLsFromSitemap (S fuel) siteURL w
    = Ret ((map Text (loc_entries urlset), None), w') /\
  length (map Text (loc_entries urlset)) = length (loc_entries urlset).
Proof.
  intros (resp & Hget & Hstatus & Hread) Hdoc Hwf.
  destruct (urlset_document_select doc urlset Hdoc) as [Hidx Hset].
  split; [|apply length_map].
  unfold getURLsFromSitemap. cbn [parseXMLSitemap].
  unfold parseXMLSitemap_body, bind, lift. rewrite Hget, Hstatus, Z.eqb_refl. cbn [negb].
  rewrite Hread, Hidx, Hset. unfold ret. do 3 f_equal.
  by apply urlset_loop_all_locs.
Qed.

(** X16. The earlier revision returns the same URLs for the same
    document: the text of every [<loc>] of a served URL set whose
    entries have one [<loc>] at most, in document order. *)
Lemma Prev_getURLsFromSitemap_urlset (siteURL : gostring)
    (doc : Document) (urlset : Element) (w w' : W) :
  serves_plain (siteURL ++ str "/sitemap.xml") doc w w' ->
  urlset_document doc urlset ->
  well_formed_urlset urlset ->
  Prev.getURLsFromSitemap siteURL w = Ret ((map Text (loc_entries urlset), None), w').
Proof.
  intros (resp & body & Hget & Hstatus & Hbody & Hread) Hdoc Hwf.
  destruct (urlset_document_select doc urlset Hdoc) as [_ Hset].
  unfold Prev.getURLsFromSitemap, bind, lift.
  rewrite Hget, Hstatus, Z.eqb_refl, Hbody. cbn [negb].
  change (Some body ≫= etree_ReadFrom) with (etree_ReadFrom body).
  rewrite Hread, Hset. unfold ret. do 3 f_equal.
  by apply urlset_loop_all_locs.
Qed.

Lemma index_loop_locations (resolve : gostring -> M (list gostring * option error))
    (elems : list Element) : forall (urls : list gostring) (w : W),
  index_loop resolve elems urls w
  = locations_loop resolve
      (omap (fun e => Text <$> SelectElement (Child e) (str "loc")) elems) urls w.
Proof.
  induction elems as [|e elems IH]; intros urls w; simpl; [reflexivity|].
  destruct (SelectElement (Child e) (str "loc")) as [loc|]; simpl; [|apply IH].
  unfold bind, effect.
  destruct (resolve (Text loc) w) as [[[sub [err|]] w1]| |]; try reflexivity; apply IH.
Qed.

Lemma locations_loop_app (resolve : gostring -> M (list gostring * option error))
    (l1 l2 : list gostring) : forall (urls : list gostring) (w : W),
  locations_loop resolve (l1 ++ l2) urls w
  = bind (locations_loop resolve l1 urls) (locations_loop resolve l2) w.
Proof.
  induction l1 as [|loc l1 IH]; intros urls w; simpl; [reflexivity|].
  unfold bind, effect in *.
  destruct (resolve loc w) as [[[sub [err|]] w1]| |]; try reflexivity; apply IH.
Qed.

Lemma locations_loop_resolves (resolve : gostring -> M (list gostring * option error))
    (locs : list gostring) (results : list (list gostring)) (w w' : W) :
  resolves_all resolve locs w results w' ->
  forall urls, locations_loop resolve locs urls w = Ret (urls ++ concat results, w').
Proof.
  induction 1 as [w|loc locs sub rest w w1 w2 Hres _ IH]; intros urls; simpl.
  - by rewrite app_nil_r.
  - unfold bind. rewrite Hres. rewrite IH. by rewrite app_assoc.
Qed.

(** C3. When a sitemap index is served and one of the sub-sitemaps it
    refers to fails while all the others resolve, resolution of the index
    does not fail: it logs the failure, goes on with the locations after
    it, and returns the URLs of the others concatenated in order. *)
Theorem parseXMLSitemap_index_skips_failure (fuel : nat) (sitemapURL : gostring)
    (doc : Document) (sitemapIndex : Element)
    (before after : list gostring) (failing : gostring)
    (urls_before urls_after : list (list gostring))
    (partial : list gostring) (err : error) (w w0 w1 w2 w3 : W) :
  serves sitemapURL doc w w0 ->
  index_document doc sitemapIndex ->
  sub_locations sitemapIndex = before ++ failing :: after ->
  resolves_all (parseXMLSitemap fuel) before w0 urls_before w1 ->
  parseXMLSitemap fuel failing w1 = Ret ((partial, Some err), w2) ->
  resolves_all (parseXMLSitemap fuel) after
    (fmt_Printf (LogSubSitemap failing err) w2) urls_after w3 ->
  parseXMLSitemap (S fuel) sitemapURL w
    = Ret ((concat urls_before ++ concat urls_after, None), w3) /\
  length (urls_before ++ urls_after) = (length (sub_locations sitemapIndex) - 1)%nat.
Proof.
  intros (resp & Hget & Hstatus & Hread) [-> Htag] Hlocs Hbefore Hfail Hafter.
  split.
  - cbn [parseXMLSitemap]. unfold parseXMLSitemap_body.
    unfold bind at 1. unfold lift. rewrite Hget, Hstatus, Z.eqb_refl.
    cbn [negb]. rewrite Hread.
    replace (SelectElement [sitemapIndex] (str "sitemapindex")) with (Some sitemapIndex)
      by (unfold SelectElement; simpl; unfold tag_matches; simpl; by rewrite Htag).
    unfold bind. rewrite index_loop_locations. fold (sub_locations sitemapIndex).
    rewrite Hlocs, locations_loop_app. unfold bind.
    rewrite (locations_loop_resolves _ _ _ _ _ Hbefore). simpl.
    unfold bind at 1. rewrite Hfail. unfold bind, effect.
    rewrite (locations_loop_resolves _ _ _ _ _ Hafter). reflexivity.
  - rewrite Hlocs, !length_app. simpl.
    assert (Hb : length urls_before = length before).
    { clear -Hbefore. induction Hbefore; simpl; auto. }
    assert (Ha : length urls_after = length after).
    { clear -Hafter. induction Hafter; simpl; auto. }
    lia.
Qed.

Lemma index_loop_more_fuel
    (resolve resolve' : gostring -> M (list gostring * option error)) :
  (forall loc w r, resolve loc w = r -> r <> OutOfFuel -> resolve' loc w = r) ->
  forall (elems : list Element) (urls : list gostring) (w : W) r,
    index_loop resolve elems urls w = r -> r <> OutOfFuel ->
    index_loop resolve' elems urls w = r.
Proof.
  intros Hres. induction elems as [|e elems IH]; intros urls w r Hrun Hr; simpl in *.
  - exact Hrun.
  - destruct (SelectElement (Child e) (str "loc")) as [loc|]; [|by apply IH].
    unfold bind in *.
    destruct (resolve (Text loc) w) as [[[sub [err|]] w1]| |] eqn:Hsub.
    + rewrite (Hres _ _ _ Hsub) by discriminate. unfold effect in *. by apply IH.
    + rewrite (Hres _ _ _ Hsub) by discriminate. by apply IH.
    + by rewrite (Hres _ _ _ Hsub) by discriminate.
    + congruence.
Qed.

Lemma parseXMLSitemap_S (fuel : nat) (sitemapURL : gostring) :
  parseXMLSitemap (S fuel) sitemapURL
  = parseXMLSitemap_body (parseXMLSitemap fuel) sitemapURL.
Proof. reflexivity. Qed.

(** A resolution that ends within the nesting allowed ends in the same
    way when more nesting is allowed: the bound of the model does not
    change what the code returns. *)
Lemma parseXMLSitemap_more_fuel (fuel : nat) :
  forall (sitemapURL : gostring) (w : W) r,
    parseXMLSitemap fuel sitemapURL w = r -> r <> OutOfFuel ->
    parseXMLSitemap (S fuel) sitemapURL w = r.
Proof.
  induction fuel as [|fuel IH]; intros sitemapURL w r Hrun Hr.
  - simpl in Hrun. congruence.
  - rewrite parseXMLSitemap_S in Hrun |- *. revert Hrun.
    unfold parseXMLSitemap_body. unfold bind at 1 3. unfold lift.
    destruct (http_Get sitemapURL w) as [[msg|resp] w1]; [done|].
    destruct (negb (StatusCode resp =? 200)); [done|].
    destruct (read_sitemap sitemapURL resp) as [doc|err]; [|done].
    destruct (SelectElement doc (str "sitemapindex")) as [idx|]; [|done].
    unfold bind. intros Hrun.
    destruct (index_loop (parseXMLSitemap fuel) _ [] w1) as [[urls w2]| |] eqn:Hloop.
    + by rewrite (index_loop_more_fuel _ _ IH _ _ _ _ Hloop) by discriminate.
    + by rewrite (index_loop_more_fuel _ _ IH _ _ _ _ Hloop) by discriminate.
    + congruence.
Qed.

End Sitemap.

Section Curation.
Context `{GoLib} `{World}.

(** ** The responses of the curation service *)

Lemma HasPrefix_app (p s : gostring) : HasPrefix (p ++ s) p = true.
Proof.
  induction p as [|c p IH]; simpl; [reflexivity|].
  by rewrite Ascii.eqb_refl, IH.
Qed.

Lemma TrimPrefix_app (p s : gostring) : TrimPrefix (p ++ s) p = s.
Proof. unfold TrimPrefix. by rewrite HasPrefix_app, drop_app_length. Qed.

Lemma TrimSuffix_app (s p : gostring) : TrimSuffix (s ++ p) p = s.
Proof.
  unfold TrimSuffix, HasSuffix. rewrite rev_app_distr, HasPrefix_app.
  rewrite length_app. replace (length s + length p - length p)%nat with (length s) by lia.
  apply take_app_length.
Qed.

Lemma HasPrefix_head_ne (c d : ascii) (s p : gostring) :
  c <> d -> HasPrefix (c :: s) (d :: p) = false.
Proof. intros Hne. simpl. by apply Ascii.eqb_neq in Hne as ->. Qed.

Lemma json_space_ascii_space (c : ascii) :
  json_space c = true -> is_ascii_byte c = true /\ asciiSpace c = true.
Proof.
  unfold json_space, is_ascii_byte, asciiSpace, RuneSelf.
  destruct (byte_of c =? 32)%N eqn:E1; [apply N.eqb_eq in E1 as ->; by compute|].
  destruct (byte_of c =? 9)%N eqn:E2; [apply N.eqb_eq in E2 as ->; by compute|].
  destruct (byte_of c =? 10)%N eqn:E3; [apply N.eqb_eq in E3 as ->; by compute|].
  destruct (byte_of c =? 13)%N eqn:E4; [apply N.eqb_eq in E4 as ->; by compute|].
  simpl. discriminate.
Qed.

Lemma json_space_not (c d : ascii) :
  json_space c = true -> json_space d = false -> c <> d.
Proof. intros Hc Hd ->. congruence. Qed.

(** A text that starts with white space or a bracket does not start
    with a fence. *)
Lemma array_text_no_fence_open (lead rest : gostring) :
  forallb json_space lead = true ->
  TrimPrefix (lead ++ str "[" ++ rest) fence_open = lead ++ str "[" ++ rest.
Proof.
  intros Hlead. unfold TrimPrefix.
  replace (HasPrefix _ fence_open) with false; [reflexivity|].
  symmetry. destruct lead as [|c lead]; simpl app.
  - reflexivity.
  - apply andb_prop in Hlead as [Hc _].
    apply HasPrefix_head_ne. by apply (json_space_not _ _ Hc).
Qed.

Lemma array_text_no_fence_close (front trail : gostring) :
  forallb json_space trail = true ->
  TrimSuffix (front ++ str "]" ++ trail) fence_close = front ++ str "]" ++ trail.
Proof.
  intros Htrail. unfold TrimSuffix, HasSuffix.
  replace (HasPrefix _ _) with false; [reflexivity|].
  symmetry. rewrite !rev_app_distr.
  destruct (rev trail) as [|c r] eqn:Hr; simpl app.
  - reflexivity.
  - assert (Hc : json_space c = true).
    { assert (Hin : In c (rev trail)) by (rewrite Hr; by left).
      apply in_rev in Hin. rewrite forallb_forall in Htrail. by apply Htrail. }
    apply HasPrefix_head_ne. by apply (json_space_not _ _ Hc).
Qed.

Lemma trim_space_stop_spaces (trail r : gostring) (d : ascii) :
  forallb json_space trail = true ->
  is_ascii_byte d = true -> asciiSpace d = false ->
  trim_space_stop (rev trail ++ d :: r) = rev (d :: r).
Proof.
  intros Htrail Hd Hns.
  assert (Hall : forallb json_space (rev trail) = true).
  { rewrite forallb_forall in *. intros x Hx. apply Htrail. by apply in_rev. }
  clear Htrail. induction (rev trail) as [|c t IH]; simpl app.
  - cbn [trim_space_stop]. by rewrite Hd, Hns.
  - apply andb_prop in Hall as [Hc Hall].
    destruct (json_space_ascii_space c Hc) as [Ha Hs].
    cbn [trim_space_stop]. rewrite Ha, Hs. simpl. by apply IH.
Qed.

(** [TrimSpace] of a bracketed text with JSON white space around it is
    the bracketed text. *)
Lemma TrimSpace_array_text (lead mid trail : gostring) :
  forallb json_space lead = true -> forallb json_space trail = true ->
  TrimSpace (lead ++ str "[" ++ mid ++ str "]" ++ trail) = str "[" ++ mid ++ str "]".
Proof.
  intros Hlead Htrail. induction lead as [|c lead IH]; simpl app.
  - change (str "[" ++ mid ++ str "]" ++ trail)
      with ("["%char :: (mid ++ str "]" ++ trail)).
    cbn [TrimSpace].
    change (is_ascii_byte "[") with true. change (asciiSpace "[") with false. cbn [negb].
    assert (Hrev : rev ("["%char :: mid ++ "]"%char :: trail)
                   = rev trail ++ "]"%char :: rev ("["%char :: mid)).
    { change ("["%char :: mid ++ "]"%char :: trail)
        with (("["%char :: mid) ++ "]"%char :: trail).
      rewrite rev_app_distr. simpl. by rewrite <- !app_assoc. }
    change (rev ("["%char :: mid ++ str "]" ++ trail))
      with (rev ("["%char :: mid ++ "]"%char :: trail)).
    rewrite Hrev, trim_space_stop_spaces by done.
    change (rev ("]"%char :: rev ("["%char :: mid)))
      with (rev (rev ("["%char :: mid)) ++ str "]").
    by rewrite rev_involutive.
  - apply andb_prop in Hlead as [Hc Hlead].
    destruct (json_space_ascii_space c Hc) as [Ha Hs].
    cbn [TrimSpace]. rewrite Ha, Hs. simpl. by apply IH.
Qed.

(** C8. A bracketed text wrapped in a markdown code fence is parsed as
    the text itself is, by both parsers of the curation client; the
    parser of the second call does not trim and relies on the decoder
    skipping the white space that is left. *)
Theorem fenced_parses_as_unwrapped (t : gostring) :
  ignores_json_space json_Unmarshal_results ->
  json_array_text t ->
  parseJSONURLs (fenced t) = parseJSONURLs t /\
  parseJSONResponse (fenced t) = parseJSONResponse t.
Proof.
  intros Hdec (lead & mid & trail & -> & Hlead & Htrail).
  set (core := str "[" ++ mid ++ str "]").
  assert (Hnl : forallb json_space nl = true) by reflexivity.
  assert (Hlead' : forallb json_space (nl ++ lead) = true)
    by (rewrite forallb_app, Hlead; reflexivity).
  assert (Htrail' : forallb json_space (trail ++ nl) = true)
    by (rewrite forallb_app, Htrail; reflexivity).
  assert (Hstrip :
    TrimSuffix (TrimPrefix (fenced (lead ++ str "[" ++ mid ++ str "]" ++ trail))
                  fence_open) fence_close
    = nl ++ (lead ++ str "[" ++ mid ++ str "]" ++ trail) ++ nl).
  { unfold fenced. rewrite TrimPrefix_app.
    rewrite !app_assoc. rewrite TrimSuffix_app. by rewrite <- !app_assoc. }
  assert (Hplain :
    TrimSuffix (TrimPrefix (lead ++ str "[" ++ mid ++ str "]" ++ trail)
                  fence_open) fence_close
    = lead ++ str "[" ++ mid ++ str "]" ++ trail).
  { rewrite array_text_no_fence_open by done.
    rewrite !app_assoc, <- (app_assoc _ (str "]") trail).
    by rewrite array_text_no_fence_close. }
  split.
  - unfold parseJSONURLs. rewrite Hstrip, Hplain.
    replace (nl ++ (lead ++ str "[" ++ mid ++ str "]" ++ trail) ++ nl)
      with ((nl ++ lead) ++ str "[" ++ mid ++ str "]" ++ (trail ++ nl))
      by (by rewrite <- !app_assoc).
    by rewrite !TrimSpace_array_text.
  - unfold parseJSONResponse. rewrite Hstrip, Hplain.
    by rewrite (Hdec nl _ nl).
Qed.

End Curation.

Section Orchestrator.
Context `{GoLib} `{World}.

(** ** The orchestrator and the curation calls *)

Lemma NarrowDownURLs_unparseable (urls : list gostring) (siteCategory : gostring)
    (content : gostring) (more : list gostring) (w w' : W) :
  llm_GenerateContent (narrow_request urls siteCategory) w
    = (LLMChoices (content :: more), w') ->
  unparseable_urls content ->
  NarrowDownURLs urls siteCategory w = Ret (([], Some ErrParseJSON), w').
Proof.
  intros Hllm Hbad. unfold NarrowDownURLs, bind, lift.
  fold (narrow_request urls siteCategory). rewrite Hllm.
  unfold ret, parseJSONURLs. fold (unfenced content).
  unfold unparseable_urls in Hbad. by rewrite Hbad.
Qed.

Lemma SelectAndCategorizeURLs_unparseable (urls : list gostring)
    (heads : gmap gostring gostring) (siteCategory : gostring)
    (content : gostring) (more : list gostring) (w w' : W) :
  llm_GenerateContent (select_request urls heads siteCategory) w
    = (LLMChoices (content :: more), w') ->
  unparseable_results content ->
  SelectAndCategorizeURLs urls heads siteCategory w = Ret (([], Some ErrParseJSON), w').
Proof.
  intros Hllm Hbad. unfold SelectAndCategorizeURLs, bind, lift.
  fold (select_request urls heads siteCategory). rewrite Hllm.
  unfold ret, parseJSONResponse. fold (unfenced content).
  unfold unparseable_results in Hbad. by rewrite Hbad.
Qed.

(** C5. When the response of a curation call, the first or the second,
    does not parse after the fence markers are stripped, [Discover] ends
    there with the JSON parse error and an empty result list. *)
Theorem Discover_fails_closed (fuel : nat) (siteURL siteCategory : gostring) (w w' : W) :
  meets_unparseable_response fuel siteURL siteCategory w w' ->
  Discover fuel siteURL siteCategory w = Ret (([], Some ErrParseJSON), w').
Proof.
  intros [(urls & w1 & sample & w2 & content & more & Hmap & Hsample & Hllm & Hbad)
         |(urls & w1 & sample & w2 & narrowed & w3 & heads & w4 & content & more
           & Hmap & Hsample & Hnarrow & Hheads & Hllm & Hbad)].
  - unfold Discover, bind. rewrite Hmap, Hsample.
    by rewrite (NarrowDownURLs_unparseable _ _ _ _ _ _ Hllm Hbad).
  - unfold Discover, bind. rewrite Hmap, Hsample, Hnarrow, Hheads.
    by rewrite (SelectAndCategorizeURLs_unparseable _ _ _ _ _ _ _ Hllm Hbad).
Qed.

Lemma check_loop_keeps (selected : list Result) : forall (results : list Result) (w w' : W),
  check_loop selected w = Ret (results, w') ->
  length results = length selected /\
  map URL results = map URL selected /\
  map Category results = map Category selected.
Proof.
  induction selected as [|r selected IH]; intros results w w' Hrun; simpl in Hrun.
  - unfold ret in Hrun. by simplify_eq.
  - unfold bind in Hrun.
    destruct (checkURLStatus (URL r) w) as [[status w1]| |]; try discriminate.
    destruct (check_loop selected w1) as [[rest w2]| |] eqn:Hrest; try discriminate.
    unfold ret in Hrun. simplify_eq.
    destruct (IH _ _ _ Hrest) as (Hl & Hu & Hc). simpl. by rewrite Hl, Hu, Hc.
Qed.

Lemma SelectAndCategorizeURLs_decodes (urls : list gostring)
    (heads : gmap gostring gostring) (siteCategory : gostring)
    (selected : list Result) (w w' : W) :
  SelectAndCategorizeURLs urls heads siteCategory w = Ret ((selected, None), w') ->
  exists content more,
    llm_GenerateContent (select_request urls heads siteCategory) w
      = (LLMChoices (content :: more), w') /\
    json_Unmarshal_results (unfenced content) = Some selected.
Proof.
  unfold SelectAndCategorizeURLs, bind, lift.
  fold (select_request urls heads siteCategory).
  destruct (llm_GenerateContent _ w) as [[|[|content more]] w1]; try discriminate.
  unfold ret, parseJSONResponse. fold (unfenced content).
  destruct (json_Unmarshal_results (unfenced content)) as [rs|] eqn:Hdec; try discriminate.
  intros Heq. simplify_eq. by exists content, more.
Qed.

(** C1, as the code has it. A successful run of [Discover] returns one
    result for every entry decoded from the response of the second
    curation call, with the URL and the category of that entry and in the
    same order; the number of results is the number of entries, which the
    code does not bound. *)
Theorem Discover_returns_every_entry (fuel : nat) (siteURL siteCategory : gostring)
    (w w' : W) (results : list Result) :
  Discover fuel siteURL siteCategory w = Ret ((results, None), w') ->
  exists narrowed heads content more selected wa wb,
    llm_GenerateContent (select_request narrowed heads siteCategory) wa
      = (LLMChoices (content :: more), wb) /\
    json_Unmarshal_results (unfenced content) = Some selected /\
    length results = length selected /\
    map URL results = map URL selected /\
    map Category results = map Category selected.
Proof.
  unfold Discover. intros Hrun. unfold bind at 1 in Hrun.
  destruct (getURLsFromSitemap fuel siteURL w) as [[[urls [e|]] w1]| |];
    try discriminate.
  unfold bind at 1 in Hrun.
  destruct (sampleUrls siteURL urls w1) as [[sample w2]| |]; try discriminate.
  unfold bind at 1 in Hrun.
  destruct (NarrowDownURLs sample siteCategory w2) as [[[narrowed [e|]] w3]| |];
    try discriminate.
  unfold bind at 1 in Hrun.
  destruct (extractHeads narrowed w3) as [[[heads [e|]] w4]| |]; try discriminate.
  unfold bind at 1 in Hrun.
  destruct (SelectAndCategorizeURLs narrowed heads siteCategory w4)
    as [[[selected [e|]] w5]| |] eqn:Hsel; try discriminate.
  unfold bind in Hrun.
  destruct (check_loop selected w5) as [[checked w6]| |] eqn:Hcheck; try discriminate.
  unfold ret in Hrun. simplify_eq.
  destruct (SelectAndCategorizeURLs_decodes _ _ _ _ _ _ Hsel) as (content & more & Hllm & Hdec).
  destruct (check_loop_keeps _ _ _ _ Hcheck) as (Hl & Hu & Hc).
  by exists narrowed, heads, content, more, selected, w4, w5.
Qed.

(** X17. In the earlier revision the first call reads a comma-separated
    answer: it reports the failure of the service and nothing else. *)
Lemma Prev_NarrowDownURLs_only_service_error (urls : list gostring)
    (siteCategory : gostring) (w w' : W) (narrowed : list gostring) (err : error) :
  Prev.NarrowDownURLs urls siteCategory w = Ret ((narrowed, Some err), w') ->
  err = ErrCallLLM.
Proof.
  unfold Prev.NarrowDownURLs, bind, lift.
  destruct (llm_GenerateContent _ w) as [[|[|content more]] w1]; try discriminate.
  unfold ret. by intros [= _ <- _].
Qed.

End Orchestrator.

Section Heads.
Context `{GoLib} `{World}.

(** ** Head extraction *)

Lemma HasPrefix_true (p : gostring) : forall s,
  HasPrefix s p = true -> exists rest, s = p ++ rest.
Proof.
  induction p as [|c p IH]; intros s Hp; simpl in Hp.
  - by exists s.
  - destruct s as [|d s]; [discriminate|].
    apply andb_prop in Hp as [Hc Hp]. apply Ascii.eqb_eq in Hc as ->.
    destruct (IH _ Hp) as [rest ->]. by exists rest.
Qed.

Lemma index_from_lacks (sub : gostring) : forall (s : gostring) (i : Z),
  lacks s sub -> index_from s sub i = -1.
Proof.
  induction s as [|c s IH]; intros i Hno; simpl.
  - destruct (HasPrefix [] sub) eqn:Hp; [|reflexivity].
    destruct (HasPrefix_true _ _ Hp) as [rest Heq]. by destruct (Hno [] rest).
  - destruct (HasPrefix (c :: s) sub) eqn:Hp.
    + destruct (HasPrefix_true _ _ Hp) as [rest Heq]. by destruct (Hno [] rest).
    + apply IH. intros pre post ->. by apply (Hno (c :: pre) post).
Qed.

Lemma Index_lacks (s sub : gostring) : lacks s sub -> Index s sub = -1.
Proof. apply index_from_lacks. Qed.


(** C9, where the code departs from it. A body that has both markers
    and whose first [</head>] starts before the end of its first
    [<head>] makes the iteration
    slice with a lower bound above the upper bound: [extractHeads]
    panics, in both revisions, and records nothing. *)
Theorem extractHeads_panics_on_reversed_markers
    (url : gostring) (resp : Response) (body : gostring) (w w' : W) :
  http_Get url w = (HttpOk resp, w') ->
  Body resp = Some body ->
  0 <= Index body (str "<head>") ->
  0 <= Index body (str "</head>") < Index body (str "<head>") + 6 ->
  extractHeads [url] w = Panic /\ Prev.extractHeads [url] w = Panic.
Proof.
  intros Hget Hbody Hstart [Hlo Hhi].
  assert (Hs : (Index body (str "<head>") =? -1) = false) by (apply Z.eqb_neq; lia).
  assert (He : (Index body (str "</head>") =? -1) = false) by (apply Z.eqb_neq; lia).
  assert (Hslice : slice body (Index body (str "<head>") + len (str "<head>"))
                     (Index body (str "</head>")) = Panic).
  { unfold slice. change (len (str "<head>")) with 6.
    replace (_ + 6 <=? _) with false by (symmetry; apply Z.leb_gt; lia).
    by rewrite andb_false_r. }
  split.
  - unfold extractHeads. cbn [extractHeads_loop]. unfold bind at 1 2.
    unfold extractHeads_step, bind, lift. rewrite Hget, Hbody, Hs, He. cbn [negb andb].
    unfold pure_run. by rewrite Hslice.
  - unfold Prev.extractHeads. cbn [Prev.extractHeads_loop]. unfold bind at 1 2.
    unfold Prev.extractHeads_step, bind, lift. rewrite Hget, Hbody, Hs, He. cbn [negb andb].
    unfold pure_run. by rewrite Hslice.
Qed.

Lemma index_from_unfold (s sub : gostring) (i : Z) :
  index_from s sub i
  = if HasPrefix s sub then i
    else match s with [] => -1 | _ :: cs => index_from cs sub (i + 1) end.
Proof. by destruct s. Qed.

Lemma index_from_first (sub post : gostring) : forall (pre : gostring) (i : Z),
  (forall pre' post', pre ++ sub ++ post = pre' ++ sub ++ post' ->
                      (length pre <= length pre')%nat) ->
  index_from (pre ++ sub ++ post) sub i = i + len pre.
Proof.
  induction pre as [|c pre IH]; intros i Hmin.
  - rewrite index_from_unfold. simpl app. rewrite HasPrefix_app.
    unfold len. simpl. lia.
  - simpl app. cbn [index_from].
    destruct (HasPrefix (c :: pre ++ sub ++ post) sub) eqn:Hp.
    + destruct (HasPrefix_true _ _ Hp) as [rest Heq].
      specialize (Hmin [] rest Heq). simpl in Hmin. lia.
    + rewrite IH.
      * unfold len. simpl. lia.
      * intros pre' post' Heq.
        specialize (Hmin (c :: pre') post'). simpl in Hmin.
        rewrite Heq in Hmin. specialize (Hmin eq_refl). lia.
Qed.

Lemma Index_first (s sub pre post : gostring) :
  first_occurrence s sub pre post -> Index s sub = len pre.
Proof.
  intros [-> Hmin]. unfold Index. by rewrite index_from_first.
Qed.

(** X10. When the first [</head>] comes after the first [<head>], the
    fragment is what lies between the two: the current revision stores
    it cleaned, the earlier one as it is. *)
Lemma extractHeads_step_between_markers (heads : gmap gostring gostring)
    (url : gostring) (resp : Response) (pre inner post : gostring) (w w' : W) :
  let body := pre ++ str "<head>" ++ inner ++ str "</head>" ++ post in
  http_Get url w = (HttpOk resp, w') ->
  Body resp = Some body ->
  first_occurrence body (str "<head>") pre (inner ++ str "</head>" ++ post) ->
  first_occurrence body (str "</head>") (pre ++ str "<head>" ++ inner) post ->
  extractHeads_step heads url w
  = run_bind (cleanupHTML inner)
      (fun cleaned => Ret (<[url := cleaned]> heads, time_Sleep 100 w')) /\
  Prev.extractHeads_step heads url w = Ret (<[url := inner]> heads, time_Sleep 100 w').
Proof.
  intros body Hget Hbody Hopen Hclose.
  assert (Hslice : slice body (len pre + len (str "<head>"))
                     (len (pre ++ str "<head>" ++ inner)) = Ret inner).
  { unfold slice, len. rewrite !length_app.
    replace (_ && _ && _) with true.
    2:{ symmetry. rewrite !andb_true_iff, !Z.leb_le. unfold body.
        rewrite !length_app. lia. }
    f_equal. rewrite <- Nat2Z.inj_add, !Nat2Z.id.
    replace (length pre + (length (str "<head>") + length inner)
             - (length pre + length (str "<head>")))%nat with (length inner) by lia.
    unfold body. rewrite app_assoc, drop_app_length'.
    - by rewrite take_app_length.
    - by rewrite length_app. }
  apply Index_first in Hopen, Hclose.
  assert (Hs : (len pre =? -1) = false) by (apply Z.eqb_neq; unfold len; lia).
  assert (He : (len (pre ++ str "<head>" ++ inner) =? -1) = false)
    by (apply Z.eqb_neq; unfold len; lia).
  split.
  - unfold extractHeads_step, bind, lift. rewrite Hget, Hbody.
    fold body. rewrite Hopen, Hclose, Hs, He. cbn [negb andb].
    unfold pure_run. rewrite Hslice. cbn [run_bind].
    by destruct (cleanupHTML inner).
  - unfold Prev.extractHeads_step, bind, lift. rewrite Hget, Hbody.
    fold body. rewrite Hopen, Hclose, Hs, He. cbn [negb andb].
    unfold pure_run. by rewrite Hslice.
Qed.

Lemma extractHeads_step_inserts (heads heads' : gmap gostring gostring)
    (url : gostring) (w w' : W) :
  extractHeads_step heads url w = Ret (heads', w') ->
  exists fragment, heads' = <[url := fragment]> heads.
Proof.
  unfold extractHeads_step, bind, lift, effect, ret, pure_run.
  destruct (http_Get url w) as [[msg|resp] w1].
  { intros [= <- _]. by eexists. }
  destruct (Body resp) as [body|].
  2:{ intros [= <- _]. by eexists. }
  destruct (negb _ && negb _).
  - destruct (slice body _ _) as [content| |]; cbn [run_bind]; try discriminate.
    destruct (cleanupHTML content) as [cleaned| |]; cbn [run_bind]; try discriminate.
    intros [= <- _]. by eexists.
  - intros [= <- _]. by eexists.
Qed.

Lemma extractHeads_loop_records (urls : list gostring) :
  forall (heads final : gmap gostring gostring) (w w' : W),
    extractHeads_loop urls heads w = Ret (final, w') ->
    forall url, url ∈ urls \/ is_Some (heads !! url) -> is_Some (final !! url).
Proof.
  induction urls as [|u urls IH]; intros heads final w w' Hrun url Hin; simpl in Hrun.
  - unfold ret in Hrun. simplify_eq. destruct Hin as [Hin|Hin]; [|done].
    by apply elem_of_nil in Hin.
  - unfold bind in Hrun.
    destruct (extractHeads_step heads u w) as [[heads1 w1]| |] eqn:Hstep; try discriminate.
    destruct (extractHeads_step_inserts _ _ _ _ _ Hstep) as [fragment ->].
    apply (IH _ _ _ _ Hrun).
    destruct (decide (url = u)) as [->|Hne].
    + right. by rewrite lookup_insert_eq.
    + destruct Hin as [Hin|Hin].
      * left. apply elem_of_cons in Hin as [?|?]; [done | done].
      * right. by rewrite lookup_insert_ne.
Qed.

(** The other part of C9 that holds. When [extractHeads] returns, it
    has recorded a fragment for every URL it was given, and no error. *)
Lemma extractHeads_records_every_url (urls : list gostring)
    (heads : gmap gostring gostring) (err : option error) (w w' : W) :
  extractHeads urls w = Ret ((heads, err), w') ->
  err = None /\ forall url, url ∈ urls -> is_Some (heads !! url).
Proof.
  unfold extractHeads, bind.
  destruct (extractHeads_loop urls ∅ w) as [[final w1]| |] eqn:Hloop; try discriminate.
  unfold ret. intros [= <- <- _]. split; [reflexivity|].
  intros url Hin. apply (extractHeads_loop_records _ _ _ _ _ Hloop). by left.
Qed.

End Heads.

Section Cleanup.
Context `{GoLib}.

(** ** Stripping script and style blocks *)

(** The two examples of the specification. *)
Lemma cleanupHTML_example_blocks :
  cleanupHTML (str "<script>alert(1)</script><style>body{color:red}</style><title>X</title>")
  = Ret (str "<title>X</title>").
Proof. vm_compute. reflexivity. Qed.

Lemma cleanupHTML_example_unterminated :
  cleanupHTML (str "<title>X</title><script>var x=1;") = Ret (str "<title>X</title>").
Proof. vm_compute. reflexivity. Qed.

(** Tags are matched without regard to case, and attributes are allowed. *)
Lemma cleanupHTML_example_case :
  cleanupHTML (str "<title>X</title><SCRIPT src=a>var x=1;</ScRiPt><meta>")
  = Ret (str "<title>X</title><meta>").
Proof. vm_compute. reflexivity. Qed.

Lemma index_from_range (sub : gostring) : forall (s : gostring) (i : Z),
  index_from s sub i = -1 \/ i <= index_from s sub i.
Proof.
  induction s as [|c s IH]; intros i; simpl.
  - destruct (HasPrefix [] sub); [right; lia | by left].
  - destruct (HasPrefix (c :: s) sub); [right; lia|].
    destruct (IH (i + 1)) as [->|Hge]; [by left | right; lia].
Qed.

Lemma Index_range (s sub : gostring) : Index s sub = -1 \/ 0 <= Index s sub.
Proof. apply index_from_range. Qed.

Lemma slice_length (s : gostring) (lo hi : Z) (r : gostring) :
  slice s lo hi = Ret r -> 0 <= lo <= hi /\ hi <= len s /\ len r = hi - lo.
Proof.
  unfold slice. destruct (0 <=? lo) eqn:H0; [|discriminate].
  destruct (lo <=? hi) eqn:H1; [|discriminate].
  destruct (hi <=? len s) eqn:H2; [|discriminate]. simpl.
  intros [= <-]. apply Z.leb_le in H0, H1, H2. unfold len in *.
  rewrite length_take, length_drop. lia.
Qed.

Ltac case_run_bind :=
  match goal with
  | |- context [run_bind ?m _] => destruct m eqn:?; cbn [run_bind]; try discriminate
  end.

(** An iteration that goes on leaves a shorter string. *)
Lemma removeTags_step_shrinks (result openTag closeTag next : gostring) :
  removeTags_step result openTag closeTag = Ret (inl next) ->
  (length next < length result)%nat.
Proof.
  unfold removeTags_step, slice_from, slice_to.
  destruct (Index (ToLower result) (ToLower openTag) =? -1) eqn:Hopen; [discriminate|].
  case_run_bind.
  match goal with
  | |- context [Index ?t (str ">") =? -1] =>
    destruct (Index t (str ">") =? -1) eqn:Hgt; [discriminate|];
    destruct (Index_range t (str ">")) as [Hg|Hg];
    [apply Z.eqb_neq in Hgt; done|]
  end.
  case_run_bind.
  match goal with
  | |- context [Index ?t ?c =? -1] =>
    destruct (Index t c =? -1) eqn:Hclose;
    [case_run_bind|];
    destruct (Index_range t c) as [Hc|Hc];
    [apply Z.eqb_neq in Hclose; done|]
  end.
  do 2 case_run_bind. intros [= <-].
  apply Z.eqb_neq in Hopen.
  destruct (Index_range (ToLower result) (ToLower openTag)) as [?|Ho]; [done|].
  repeat match goal with
         | Hs : slice _ _ _ = Ret _ |- _ => apply slice_length in Hs
         end.
  unfold len in *. rewrite length_app. lia.
Qed.

Lemma slice_not_OutOfFuel (s : gostring) (lo hi : Z) : slice s lo hi <> OutOfFuel.
Proof. unfold slice. by destruct (_ && _). Qed.

Lemma removeTags_step_not_OutOfFuel (result openTag closeTag : gostring) :
  removeTags_step result openTag closeTag <> OutOfFuel.
Proof.
  unfold removeTags_step, slice_from, slice_to.
  repeat first
    [ discriminate
    | match goal with
      | |- context [if ?b then _ else _] => destruct b
      | |- context [run_bind (slice ?s ?lo ?hi) _] =>
        let E := fresh in
        destruct (slice s lo hi) eqn:E; cbn [run_bind];
        [| | by destruct (slice_not_OutOfFuel s lo hi)]
      end ].
Qed.

Lemma removeTags_loop_fuel (openTag closeTag : gostring) :
  forall (fuel : nat) (result : gostring),
    (length result < fuel)%nat ->
    removeTags_loop fuel result openTag closeTag <> OutOfFuel.
Proof.
  induction fuel as [|fuel IH]; intros result Hlt; [lia|].
  cbn [removeTags_loop].
  destruct (removeTags_step result openTag closeTag) as [[next|final]| |] eqn:Hstep;
    cbn [run_bind]; try discriminate.
  - apply IH. apply removeTags_step_shrinks in Hstep. lia.
  - by destruct (removeTags_step_not_OutOfFuel result openTag closeTag).
Qed.

(** The loop of [removeTagsAndContent] always ends: the iterations the
    model allows are never used up. *)
Lemma removeTagsAndContent_ends (html tagName : gostring) :
  removeTagsAndContent html tagName <> OutOfFuel.
Proof. unfold removeTagsAndContent. apply removeTags_loop_fuel. lia. Qed.

(** X6. The cleanup always ends: an iteration that goes on shortens the
    string, so the loops of both passes stop within the iterations the
    model allows, whatever the input. *)
Lemma cleanupHTML_ends (html : gostring) : cleanupHTML html <> OutOfFuel.
Proof.
  unfold cleanupHTML.
  destruct (removeTagsAndContent html (str "script")) as [r| |] eqn:Hs; simpl.
  - apply removeTagsAndContent_ends.
  - discriminate.
  - by destruct (removeTagsAndContent_ends html (str "script")).
Qed.

(** *** ASCII input: the positions of the copy are those of the original *)

Lemma ToLower_ascii (s : gostring) :
  forallb is_ascii_byte s = true -> ToLower s = map lower_byte s.
Proof. intros Hs. unfold ToLower. by rewrite Hs. Qed.

Lemma forallb_take {A} (f : A -> bool) (n : nat) (l : list A) :
  forallb f l = true -> forallb f (take n l) = true.
Proof.
  revert n. induction l as [|x l IH]; intros [|n]; simpl; try done.
  intros [Hx Hl]%andb_prop. rewrite Hx. by apply IH.
Qed.

Lemma forallb_drop {A} (f : A -> bool) (n : nat) (l : list A) :
  forallb f l = true -> forallb f (drop n l) = true.
Proof.
  revert n. induction l as [|x l IH]; intros [|n]; simpl; try done.
  intros [Hx Hl]%andb_prop. by apply IH.
Qed.

Lemma slice_in_range (s : gostring) (lo hi : Z) :
  0 <= lo <= hi -> hi <= len s ->
  slice s lo hi = Ret (take (Z.to_nat hi - Z.to_nat lo) (drop (Z.to_nat lo) s)).
Proof.
  intros [H0 H1] H2. unfold slice.
  by rewrite (proj2 (Z.leb_le _ _) H0), (proj2 (Z.leb_le _ _) H1),
             (proj2 (Z.leb_le _ _) H2).
Qed.

Lemma HasPrefix_length (s p : gostring) : HasPrefix s p = true -> len p <= len s.
Proof.
  intros [rest ->]%HasPrefix_true. unfold len. rewrite length_app. lia.
Qed.

Lemma index_from_bound (sub : gostring) : forall (s : gostring) (i : Z),
  index_from s sub i = -1 \/
  (i <= index_from s sub i /\ index_from s sub i - i + len sub <= len s).
Proof.
  induction s as [|c s IH]; intros i; rewrite index_from_unfold.
  - destruct (HasPrefix [] sub) eqn:Hp; [|by left].
    right. apply HasPrefix_length in Hp. lia.
  - destruct (HasPrefix (c :: s) sub) eqn:Hp.
    + right. apply HasPrefix_length in Hp. lia.
    + destruct (IH (i + 1)) as [->|[Hge Hle]]; [by left|].
      right. unfold len in *. simpl. lia.
Qed.

(** A position that [Index] returns leaves room for the substring. *)
Lemma Index_bound (s sub : gostring) :
  Index s sub <> -1 -> 0 <= Index s sub /\ Index s sub + len sub <= len s.
Proof.
  intros Hne. unfold Index in *.
  destruct (index_from_bound sub s 0) as [?|[Hge Hle]]; [done | lia].
Qed.

Lemma len_nonneg {A} (l : list A) : 0 <= len l.
Proof. unfold len. lia. Qed.

Lemma len_lower (s : gostring) : len (map lower_byte s) = len s.
Proof. unfold len. by rewrite length_map. Qed.

(** On ASCII input, with an ASCII closing tag, an iteration does not
    panic and what it leaves is ASCII. *)
Lemma removeTags_step_ascii (result openTag closeTag : gostring) :
  forallb is_ascii_byte result = true ->
  forallb is_ascii_byte closeTag = true ->
  exists next, removeTags_step result openTag closeTag = Ret next /\
    forallb is_ascii_byte (match next with inl r => r | inr r => r end) = true.
Proof.
  intros Hres Hclose. unfold removeTags_step, slice_from, slice_to.
  rewrite (ToLower_ascii result Hres), (ToLower_ascii closeTag Hclose).
  set (lowOpen := ToLower openTag).
  destruct (Index (map lower_byte result) lowOpen =? -1) eqn:Ho.
  { exists (inr result). by split. }
  apply Z.eqb_neq, Index_bound in Ho as [Ho0 Ho1]. rewrite len_lower in Ho1.
  pose proof (len_nonneg lowOpen) as Hlo.
  set (openStart := Index (map lower_byte result) lowOpen) in *.
  rewrite (slice_in_range result openStart (len result)) by lia. cbn [run_bind].
  set (tail := take _ (drop (Z.to_nat openStart) result)).
  assert (Htail : len tail = len result - openStart).
  { unfold tail, len. rewrite length_take, length_drop. unfold len in *. lia. }
  destruct (Index tail (str ">") =? -1) eqn:Hg.
  { exists (inr result). by split. }
  apply Z.eqb_neq, Index_bound in Hg as [Hg0 Hg1]. change (len (str ">")) with 1 in Hg1.
  set (openEnd := Index tail (str ">") + (openStart + 1)).
  assert (HopenEnd : 0 <= openEnd <= len result) by (unfold openEnd; lia).
  rewrite (slice_in_range result openEnd (len result)) by lia. cbn [run_bind].
  set (rest := take _ (drop (Z.to_nat openEnd) result)).
  assert (Hrest : forallb is_ascii_byte rest = true)
    by (by apply forallb_take, forallb_drop).
  assert (Hrlen : len rest = len result - openEnd).
  { unfold rest, len. rewrite length_take, length_drop. unfold len in *. lia. }
  rewrite (ToLower_ascii rest Hrest).
  rewrite (slice_in_range result 0 openStart) by lia.
  destruct (Index (map lower_byte rest) (map lower_byte closeTag) =? -1) eqn:Hc.
  { cbn [run_bind]. eexists (inr _). split; [reflexivity|].
    by apply forallb_take, forallb_drop. }
  apply Z.eqb_neq, Index_bound in Hc as [Hc0 Hc1]. rewrite !len_lower in Hc1.
  cbn [run_bind]. rewrite slice_in_range by (pose proof (len_nonneg closeTag); lia).
  cbn [run_bind]. eexists (inl _). split; [reflexivity|].
  rewrite forallb_app. apply andb_true_intro.
  split; by apply forallb_take, forallb_drop.
Qed.

Lemma removeTags_loop_ascii (openTag closeTag : gostring) :
  forallb is_ascii_byte closeTag = true ->
  forall (fuel : nat) (result : gostring),
    (length result < fuel)%nat ->
    forallb is_ascii_byte result = true ->
    exists final, removeTags_loop fuel result openTag closeTag = Ret final /\
                  forallb is_ascii_byte final = true.
Proof.
  intros Hclose. induction fuel as [|fuel IH]; intros result Hlt Hres; [lia|].
  cbn [removeTags_loop].
  destruct (removeTags_step_ascii result openTag closeTag Hres Hclose)
    as ([next|final] & Hstep & Hascii); rewrite Hstep; cbn [run_bind].
  - apply IH; [|done]. apply removeTags_step_shrinks in Hstep. lia.
  - by exists final.
Qed.

(** On ASCII input the cleanup does not panic: it returns. *)
Lemma cleanupHTML_ascii_returns (html : gostring) :
  forallb is_ascii_byte html = true ->
  exists cleaned, cleanupHTML html = Ret cleaned /\
                  forallb is_ascii_byte cleaned = true.
Proof.
  intros Hhtml. unfold cleanupHTML, removeTagsAndContent.
  destruct (removeTags_loop_ascii (str "<" ++ str "script")
              (str "</" ++ str "script" ++ str ">") eq_refl
              (S (length html)) html ltac:(lia) Hhtml) as (r & -> & Hr).
  cbn [run_bind].
  apply (removeTags_loop_ascii (str "<" ++ str "style")
           (str "</" ++ str "style" ++ str ">") eq_refl); [lia | done].
Qed.

(** Markup in which no tag name starts with the names stays as it is. *)
Lemma removeTagsAndContent_no_opening (html tagName : gostring) :
  lacks (ToLower html) (ToLower (str "<" ++ tagName)) ->
  removeTagsAndContent html tagName = Ret html.
Proof.
  intros Hno. unfold removeTagsAndContent. cbn [removeTags_loop].
  unfold removeTags_step. by rewrite (Index_lacks _ _ Hno).
Qed.

Lemma removeTags_loop_stops (fuel : nat) (result openTag closeTag : gostring) :
  removeTags_step result openTag closeTag = Ret (inr result) ->
  removeTags_loop (S fuel) result openTag closeTag = Ret result.
Proof. intros Hstep. cbn [removeTags_loop]. by rewrite Hstep. Qed.

Lemma removeTags_loop_goes_on (fuel : nat) (result next openTag closeTag : gostring) :
  removeTags_step result openTag closeTag = Ret (inl next) ->
  removeTags_loop (S fuel) result openTag closeTag
  = removeTags_loop fuel next openTag closeTag.
Proof. intros Hstep. cbn [removeTags_loop]. by rewrite Hstep. Qed.

(** Lower-casing a string that is not ASCII, given the entry of the
    table for the one rune above ASCII that it holds. *)
Ltac lower_with Htable :=
  unfold ToLower;
  match goal with
  | |- context [forallb is_ascii_byte ?s] =>
    replace (forallb is_ascii_byte s) with false by (vm_compute; reflexivity)
  end;
  unfold Map, runes;
  match goal with
  | |- context [runes_loop ?n ?s] =>
    let rs := fresh "rs" in
    set (rs := runes_loop n s); vm_compute in rs; subst rs
  end;
  cbn [flat_map]; unfold unicode_ToLower; rewrite Htable; vm_compute; reflexivity.

Lemma ToLower_istanbul_head :
  unicode_lower_table 304 = 105%N ->
  ToLower istanbul_head
  = str "<title>istanbul</title><script>var a=1;</script><meta charset='utf-8'>".
Proof. intros Htable. lower_with Htable. Qed.

Lemma ToLower_istanbul_cleaned :
  unicode_lower_table 304 = 105%N ->
  ToLower istanbul_cleaned = str "<title>istanbul</title<meta charset='utf-8'>".
Proof. intros Htable. lower_with Htable. Qed.

(** C4, where the code departs from it. The positions of the tags are
    found in the lower-cased copy and used in the original. Lower-casing
    U+0130 gives the one-byte [i], so after a dotted capital I every
    position is one byte short: the script block goes, and with it the
    last byte of the closing title tag, which is markup that should have
    stayed. *)
Theorem cleanupHTML_shifts_after_dotted_I :
  unicode_lower_table 304 = 105%N ->
  cleanupHTML istanbul_head = Ret istanbul_cleaned /\
  istanbul_cleaned
  <> str "<title>" ++ dotted_I ++ str "stanbul</title><meta charset='utf-8'>".
Proof.
  intros Htable. split; [|by vm_compute].
  assert (Hstep1 : removeTags_step istanbul_head (str "<" ++ str "script")
                     (str "</" ++ str "script" ++ str ">") = Ret (inl istanbul_cleaned)).
  { unfold removeTags_step. rewrite (ToLower_istanbul_head Htable).
    vm_compute. reflexivity. }
  assert (Hstep2 : forall tagName, tagName = str "script" \/ tagName = str "style" ->
            removeTags_step istanbul_cleaned (str "<" ++ tagName)
              (str "</" ++ tagName ++ str ">") = Ret (inr istanbul_cleaned)).
  { intros tagName [-> | ->]; unfold removeTags_step;
      rewrite (ToLower_istanbul_cleaned Htable); vm_compute; reflexivity. }
  unfold cleanupHTML, removeTagsAndContent.
  change (length istanbul_head) with (S 70).
  rewrite (removeTags_loop_goes_on _ _ _ _ _ Hstep1).
  rewrite removeTags_loop_stops by (apply Hstep2; by left).
  cbn [run_bind]. apply removeTags_loop_stops, Hstep2. by right.
Qed.

(** The Kelvin sign takes three bytes and its lower case, [k], one: the
    positions are two bytes short and the end of the title tag is lost. *)
Lemma cleanupHTML_shifts_after_kelvin_sign :
  unicode_lower_table 8490 = 107%N ->
  cleanupHTML (str "<title>" ++ kelvin_sign ++ str "</title><script>x</script>")
  = Ret (str "<title>" ++ kelvin_sign ++ str "</titl").
Proof.
  intros Htable.
  assert (Hlow1 : ToLower (str "<title>" ++ kelvin_sign ++ str "</title><script>x</script>")
                  = str "<title>k</title><script>x</script>") by lower_with Htable.
  assert (Hlow2 : ToLower (str "<title>" ++ kelvin_sign ++ str "</titl")
                  = str "<title>k</titl") by lower_with Htable.
  assert (Hstep1 : removeTags_step
                     (str "<title>" ++ kelvin_sign ++ str "</title><script>x</script>")
                     (str "<" ++ str "script") (str "</" ++ str "script" ++ str ">")
                   = Ret (inl (str "<title>" ++ kelvin_sign ++ str "</titl"))).
  { unfold removeTags_step. rewrite Hlow1. vm_compute. reflexivity. }
  assert (Hstep2 : forall tagName, tagName = str "script" \/ tagName = str "style" ->
            removeTags_step (str "<title>" ++ kelvin_sign ++ str "</titl")
              (str "<" ++ tagName) (str "</" ++ tagName ++ str ">")
            = Ret (inr (str "<title>" ++ kelvin_sign ++ str "</titl"))).
  { intros tagName [-> | ->]; unfold removeTags_step; rewrite Hlow2;
      vm_compute; reflexivity. }
  unfold cleanupHTML, removeTagsAndContent.
  change (length (str "<title>" ++ kelvin_sign ++ str "</title><script>x</script>"))
    with (S 35).
  rewrite (removeTags_loop_goes_on _ _ _ _ _ Hstep1).
  rewrite removeTags_loop_stops by (apply Hstep2; by left).
  cbn [run_bind]. apply removeTags_loop_stops, Hstep2. by right.
Qed.

(** Bytes that are not UTF-8 lower-case to three bytes each. After four
    of them the position of the tag in the copy is beyond the end of the
    original, and the slice panics. *)
Lemma cleanupHTML_panics_on_invalid_utf8 :
  unicode_lower_table 65533 = 65533%N ->
  cleanupHTML (replicate 4 (byte_chr 255) ++ str "<script") = Panic.
Proof.
  intros Htable.
  assert (Hlow : ToLower (replicate 4 (byte_chr 255) ++ str "<script")
                 = concat (replicate 4 (encode_rune RuneError)) ++ str "<script").
  { unfold ToLower.
    replace (forallb is_ascii_byte _) with false by (vm_compute; reflexivity).
    unfold Map, runes.
    set (rs := runes_loop _ _). vm_compute in rs. subst rs.
    cbn [flat_map]. unfold unicode_ToLower. rewrite Htable. vm_compute. reflexivity. }
  unfold cleanupHTML, removeTagsAndContent. cbn [removeTags_loop].
  unfold removeTags_step. rewrite Hlow. vm_compute. reflexivity.
Qed.

End Cleanup.

(** ** The reference instance meets the contracts, and concrete runs *)

Section Reference.

Lemma insert_by_len_permutes (x : gostring) (l : list gostring) :
  Permutation (Ref.insert_by_len x l) (x :: l).
Proof.
  induction l as [|y l IH]; simpl; [done|].
  destruct (length x <=? length y)%nat; [done|].
  rewrite IH. apply Permutation_swap.
Qed.

Lemma insert_by_len_sorted (x : gostring) (l : list gostring) :
  Sorted (fun a b => (length a <= length b)%nat) l ->
  Sorted (fun a b => (length a <= length b)%nat) (Ref.insert_by_len x l).
Proof.
  induction 1 as [|y l Hs IH Hhd]; simpl.
  - by repeat constructor.
  - destruct (Nat.leb_spec (length x) (length y)) as [Hle|Hgt].
    + constructor; [by constructor | by constructor].
    + constructor; [exact IH|].
      destruct l as [|z l]; simpl.
      * constructor. lia.
      * destruct (length x <=? length z)%nat.
        -- constructor. lia.
        -- inversion Hhd. by constructor.
Qed.

Lemma Ref_sort_contract : sort_contract Ref.sort_by_len.
Proof.
  intros l. induction l as [|x l [Hp Hs]]; simpl.
  - split; [done | constructor].
  - split.
    + rewrite insert_by_len_permutes. by constructor.
    + by apply insert_by_len_sorted.
Qed.

Lemma skip_ws_spaces (lead s : gostring) :
  forallb json_space lead = true -> Ref.skip_ws (lead ++ s) = Ref.skip_ws s.
Proof.
  induction lead as [|c lead IH]; simpl; [done|].
  intros [Hc Hl]%andb_prop. rewrite Hc. by apply IH.
Qed.

Lemma skip_ws_app (s trail : gostring) :
  forallb json_space trail = true ->
  Ref.skip_ws (s ++ trail) = match Ref.skip_ws s with
                             | [] => []
                             | _ => Ref.skip_ws s ++ trail
                             end.
Proof.
  intros Htrail. induction s as [|c s IH]; simpl.
  - rewrite <- (app_nil_r trail) at 1. by rewrite skip_ws_spaces.
  - destruct (json_space c); [exact IH | reflexivity].
Qed.

Lemma json_trim_spaces (lead s trail : gostring) :
  forallb json_space lead = true -> forallb json_space trail = true ->
  Ref.json_trim (lead ++ s ++ trail) = Ref.json_trim s.
Proof.
  intros Hlead Htrail. unfold Ref.json_trim.
  rewrite skip_ws_spaces, skip_ws_app by done.
  destruct (Ref.skip_ws s) as [|c r] eqn:Hs; [reflexivity|].
  rewrite rev_app_distr. rewrite skip_ws_spaces; [reflexivity|].
  rewrite forallb_forall in *. intros x Hx. apply Htrail. by apply in_rev.
Qed.

Lemma Ref_results_ignore_space : ignores_json_space Ref.Unmarshal_results.
Proof.
  intros lead s trail Hlead Htrail.
  unfold Ref.Unmarshal_results, Ref.parse. by rewrite json_trim_spaces.
Qed.

Lemma index_from_found (sub post : gostring) : forall (pre : gostring) (i : Z),
  0 <= i -> 0 <= index_from (pre ++ sub ++ post) sub i.
Proof.
  induction pre as [|c pre IH]; intros i Hi; rewrite index_from_unfold.
  - simpl app. by rewrite HasPrefix_app.
  - destruct (HasPrefix _ sub); [lia|]. simpl app. apply IH. lia.
Qed.

(** A string in which [Index] finds nothing lacks the substring. *)
Lemma lacks_of_Index (s sub : gostring) : Index s sub = -1 -> lacks s sub.
Proof.
  intros Hidx pre post ->. unfold Index in Hidx.
  pose proof (index_from_found sub post pre 0 ltac:(lia)). lia.
Qed.

Lemma sampleUrls_small_identity_witness :
  (length Demo.small_urls <= 200)%nat /\
  @sampleUrls Ref.lib Demo.world_two Demo.site Demo.small_urls 0%nat
  = Ret (Demo.small_urls, 0%nat).
Proof.
  split; [simpl; lia|].
  apply (@sampleUrls_small_identity Ref.lib Demo.world_two). simpl. lia.
Defined.

Lemma sampleUrls_large_witness :
  sort_contract Ref.sort_by_len /\ (200 < length Demo.many_urls)%nat /\
  exists shortest picked rest w',
    @sampleUrls Ref.lib Demo.world_two Demo.site Demo.many_urls 0%nat
    = Ret (shortest ++ picked, w') /\
    (length (shortest ++ picked) <= 200)%nat /\
    length shortest = 20%nat /\
    (forall a b, a ∈ shortest -> b ∈ picked ++ rest -> (length a <= length b)%nat) /\
    Permutation ((shortest ++ picked) ++ rest) Demo.many_urls.
Proof.
  assert (Hbig : (200 < length Demo.many_urls)%nat) by (vm_compute; lia).
  split; [apply Ref_sort_contract|]. split; [exact Hbig|].
  apply (@sampleUrls_large Ref.lib Demo.world_two);
    [apply Ref_sort_contract | exact Hbig].
Defined.

Lemma getURLsFromSitemap_urlset_witness :
  @getURLsFromSitemap Ref.lib Demo.world_two 1 Demo.site 0%nat
  = Ret ((map Text (loc_entries Demo.urlset_elem), None), 0%nat) /\
  length (map Text (loc_entries Demo.urlset_elem)) = length (loc_entries Demo.urlset_elem).
Proof.
  apply (@getURLsFromSitemap_urlset Ref.lib Demo.world_two 0 Demo.site
           Demo.urlset_doc Demo.urlset_elem 0%nat 0%nat).
  - exists (Demo.ok Demo.urlset_xml).
    split; [reflexivity|]. split; [reflexivity|]. vm_compute. reflexivity.
  - split; reflexivity.
  - unfold well_formed_urlset. vm_compute. repeat constructor.
Defined.

Lemma parseXMLSitemap_index_skips_failure_witness :
  @parseXMLSitemap Ref.lib Demo.world_two 2 (Demo.index_site ++ str "/sitemap.xml") 0%nat
  = Ret ((concat [Demo.a_urls] ++ concat [Demo.c_urls], None), 0%nat) /\
  length ([Demo.a_urls] ++ [Demo.c_urls])
  = (length (sub_locations Demo.index_elem) - 1)%nat.
Proof.
  apply (@parseXMLSitemap_index_skips_failure Ref.lib Demo.world_two 1
           (Demo.index_site ++ str "/sitemap.xml") Demo.index_doc Demo.index_elem
           [str "https://idx.ex.org/a.xml"] [str "https://idx.ex.org/c.xml"]
           (str "https://idx.ex.org/b.xml") [Demo.a_urls] [Demo.c_urls]
           [] (ErrSitemapStatus 404) 0%nat 0%nat 0%nat 0%nat 0%nat).
  - exists (Demo.ok Demo.index_xml).
    split; [reflexivity|]. split; [reflexivity|]. vm_compute. reflexivity.
  - split; reflexivity.
  - vm_compute. reflexivity.
  - eapply resolves_cons; [vm_compute; reflexivity | apply resolves_nil].
  - vm_compute. reflexivity.
  - eapply resolves_cons; [vm_compute; reflexivity | apply resolves_nil].
Defined.

Lemma fenced_parses_as_unwrapped_witness :
  (@parseJSONURLs Ref.lib (fenced (Demo.json_list Demo.small_urls))
   = @parseJSONURLs Ref.lib (Demo.json_list Demo.small_urls) /\
   @parseJSONResponse Ref.lib (fenced (Demo.json_list Demo.small_urls))
   = @parseJSONResponse Ref.lib (Demo.json_list Demo.small_urls)) /\
  @parseJSONURLs Ref.lib (fenced (Demo.json_list Demo.small_urls))
  = (Demo.small_urls, None).
Proof.
  split; [|vm_compute; reflexivity].
  apply (@fenced_parses_as_unwrapped Ref.lib (Demo.json_list Demo.small_urls)).
  - apply Ref_results_ignore_space.
  - exists [], (Join (map (fun u => [dquote] ++ u ++ [dquote]) Demo.small_urls) (str ",")), [].
    split; [|split; reflexivity].
    unfold Demo.json_list. by rewrite app_nil_r.
Defined.

Lemma Discover_fails_closed_witness :
  @Discover Ref.lib Demo.world_prose 1 Demo.site (str "news") 0%nat
  = Ret (([], Some ErrParseJSON), 0%nat).
Proof.
  apply (@Discover_fails_closed Ref.lib Demo.world_prose). left.
  exists Demo.small_urls, 0%nat, Demo.small_urls, 0%nat, Demo.prose, [].
  split; [vm_compute; reflexivity|]. split; [reflexivity|].
  split; [reflexivity|]. vm_compute. reflexivity.
Defined.

Lemma Discover_returns_every_entry_witness :
  @Discover Ref.lib Demo.world_two 1 Demo.site (str "news") 0%nat
  = Ret ((Demo.two_results, None), 0%nat) /\
  exists narrowed heads content more selected wa wb,
    @llm_GenerateContent Demo.world_two
      (select_request narrowed heads (str "news")) wa
    = (LLMChoices (content :: more), wb) /\
    @json_Unmarshal_results Ref.lib (@unfenced content) = Some selected /\
    length Demo.two_results = length selected /\
    map URL Demo.two_results = map URL selected /\
    map Category Demo.two_results = map Category selected.
Proof.
  assert (Hrun : @Discover Ref.lib Demo.world_two 1 Demo.site (str "news") 0%nat
                 = Ret ((Demo.two_results, None), 0%nat)) by (vm_compute; reflexivity).
  split; [exact Hrun|].
  exact (@Discover_returns_every_entry Ref.lib Demo.world_two 1 Demo.site (str "news")
           0%nat 0%nat Demo.two_results Hrun).
Defined.

(** C1, as stated, fails. On a site of twelve pages the second curation
    call answers with eleven entries, and [Discover] returns eleven
    results: nothing in the code cuts the list at ten. *)
Lemma Discover_returns_eleven :
  @Discover Ref.lib Demo.world_eleven 1 Demo.large_site (str "news") 0%nat
  = Ret ((Demo.eleven_results, None), 0%nat) /\
  length Demo.eleven_results = 11%nat /\
  ~ at_most_ten_results.
Proof.
  assert (Hrun : @Discover Ref.lib Demo.world_eleven 1 Demo.large_site (str "news") 0%nat
                 = Ret ((Demo.eleven_results, None), 0%nat)) by (vm_compute; reflexivity).
  split; [exact Hrun|]. split; [reflexivity|].
  intros Hten. specialize (Hten _ _ _ _ _ _ _ _ Hrun). vm_compute in Hten. lia.
Qed.


Lemma extractHeads_panics_on_reversed_markers_witness :
  @extractHeads Ref.lib Demo.world_two [str "https://ex.org/reversed"] 0%nat = Panic /\
  @Prev.extractHeads Demo.world_two [str "https://ex.org/reversed"] 0%nat = Panic.
Proof.
  assert (Hs : Index Demo.reversed_page (str "<head>") = 7) by (vm_compute; reflexivity).
  assert (He : Index Demo.reversed_page (str "</head>") = 0) by (vm_compute; reflexivity).
  apply (@extractHeads_panics_on_reversed_markers Ref.lib Demo.world_two
           (str "https://ex.org/reversed") (Demo.ok Demo.reversed_page)
           Demo.reversed_page 0%nat 0%nat).
  - reflexivity.
  - reflexivity.
  - rewrite Hs. lia.
  - rewrite Hs, He. lia.
Defined.

Lemma cleanupHTML_shifts_after_dotted_I_witness :
  @cleanupHTML Ref.lib istanbul_head = Ret istanbul_cleaned /\
  istanbul_cleaned
  <> str "<title>" ++ dotted_I ++ str "stanbul</title><meta charset='utf-8'>".
Proof. apply (@cleanupHTML_shifts_after_dotted_I Ref.lib). reflexivity. Defined.

End Reference.

(** * Further properties *)

Ltac step_run_bind :=
  match goal with
  | |- context [run_bind ?m _] => destruct m eqn:?; cbn [run_bind]; try discriminate
  end.

Section CleanupMore.
Context `{GoLib}.

Lemma sublist_cut {A} (l : list A) (a b : nat) :
  (a <= b)%nat -> take a l ++ drop b l `sublist_of` l.
Proof.
  intros Hab. rewrite <- (take_drop a l) at 3.
  apply sublist_app; [done|].
  replace b with (a + (b - a))%nat by lia. rewrite <- drop_drop. apply sublist_drop.
Qed.

Lemma slice_inv (s : gostring) (lo hi : Z) (r : gostring) :
  slice s lo hi = Ret r ->
  0 <= lo <= hi /\ hi <= len s /\
  r = take (Z.to_nat hi - Z.to_nat lo) (drop (Z.to_nat lo) s).
Proof.
  unfold slice. destruct (0 <=? lo) eqn:H0; [|discriminate].
  destruct (lo <=? hi) eqn:H1; [|discriminate].
  destruct (hi <=? len s) eqn:H2; [|discriminate]. simpl.
  intros [= <-]. apply Z.leb_le in H0, H1, H2. done.
Qed.

Lemma slice_sublist (s : gostring) (lo hi : Z) (r : gostring) :
  slice s lo hi = Ret r -> r `sublist_of` s.
Proof.
  intros (_ & _ & ->)%slice_inv.
  etrans; [apply sublist_take | apply sublist_drop].
Qed.

(** What an iteration leaves is the string with one stretch cut out. *)
Lemma removeTags_step_sublist (result openTag closeTag : gostring)
    (next : gostring + gostring) :
  removeTags_step result openTag closeTag = Ret next ->
  match next with inl r => r | inr r => r end `sublist_of` result.
Proof.
  unfold removeTags_step, slice_from, slice_to.
  destruct (Index (ToLower result) (ToLower openTag) =? -1) eqn:Hopen.
  { by intros [= <-]. }
  step_run_bind.
  match goal with
  | |- context [Index ?t (str ">") =? -1] =>
    destruct (Index t (str ">") =? -1) eqn:Hgt; [by intros [= <-]|];
    destruct (Index_range t (str ">")) as [Hg|Hg];
    [apply Z.eqb_neq in Hgt; done|]
  end.
  step_run_bind.
  match goal with
  | |- context [Index ?t ?c =? -1] =>
    destruct (Index t c =? -1) eqn:Hclose
  end.
  { step_run_bind. intros [= <-]. by eapply slice_sublist. }
  match goal with
  | |- context [Index ?t ?c + _ + _] =>
    destruct (Index_range t c) as [Hc|Hc];
    [apply Z.eqb_neq in Hclose; done|]
  end.
  do 2 step_run_bind. intros [= <-]. simpl.
  apply Z.eqb_neq in Hopen.
  destruct (Index_range (ToLower result) (ToLower openTag)) as [?|Ho]; [done|].
  repeat match goal with
         | Hs : slice _ _ _ = Ret _ |- _ => apply slice_inv in Hs as (? & ? & ?)
         end.
  subst. rewrite Z2Nat.inj_0, Nat.sub_0_r, drop_0.
  rewrite (take_ge (drop _ result)) by (rewrite length_drop; unfold len in *; lia).
  apply sublist_cut. unfold len in *. lia.
Qed.

Lemma removeTags_loop_sublist (openTag closeTag : gostring) :
  forall (fuel : nat) (result final : gostring),
    removeTags_loop fuel result openTag closeTag = Ret final ->
    final `sublist_of` result.
Proof.
  induction fuel as [|fuel IH]; intros result final; [discriminate|].
  cbn [removeTags_loop].
  destruct (removeTags_step result openTag closeTag) as [[next|stop]| |] eqn:Hstep;
    cbn [run_bind]; try discriminate.
  - intros Hrun. etrans; [by apply IH|].
    exact (removeTags_step_sublist _ _ _ (inl next) Hstep).
  - intros [= <-]. exact (removeTags_step_sublist _ _ _ (inr stop) Hstep).
Qed.

(** X1. Whatever the input, the cleanup only deletes: what it returns is the
    input with some bytes left out, in the same order. *)
Theorem cleanupHTML_only_deletes (html cleaned : gostring) :
  cleanupHTML html = Ret cleaned ->
  cleaned `sublist_of` html /\ (length cleaned <= length html)%nat.
Proof.
  unfold cleanupHTML, removeTagsAndContent. intros Hrun.
  destruct (removeTags_loop _ html _ _) as [r| |] eqn:Hscript; try discriminate.
  cbn [run_bind] in Hrun.
  assert (Hsub : cleaned `sublist_of` html).
  { etrans; [by eapply removeTags_loop_sublist | by eapply removeTags_loop_sublist]. }
  split; [done | by apply sublist_length].
Qed.

End CleanupMore.

Section NoBlock.
Context `{GoLib}.

Lemma index_from_minimal (sub post : gostring) : forall (pre : gostring) (i : Z),
  index_from (pre ++ sub ++ post) sub i <= i + len pre.
Proof.
  induction pre as [|c pre IH]; intros i; rewrite index_from_unfold.
  - simpl app. rewrite HasPrefix_app. unfold len. simpl. lia.
  - destruct (HasPrefix _ sub); [unfold len; simpl; lia|].
    simpl app. specialize (IH (i + 1)). unfold len in *. simpl. lia.
Qed.

(** [Index] returns the first occurrence: no occurrence starts before it. *)
Lemma Index_minimal (s sub pre post : gostring) :
  s = pre ++ sub ++ post -> 0 <= Index s sub <= len pre.
Proof.
  intros ->. unfold Index. split.
  - apply index_from_found. lia.
  - pose proof (index_from_minimal sub post pre 0). lia.
Qed.

Lemma lower_byte_gt (c : ascii) : lower_byte c = ">"%char -> c = ">"%char.
Proof.
  destruct c as [[|] [|] [|] [|] [|] [|] [|] [|]]; vm_compute; congruence.
Qed.

Lemma lacks_gt_lower (t : gostring) :
  lacks t (str ">") -> lacks (map lower_byte t) (str ">").
Proof.
  intros Hno pre post Heq.
  apply fmap_app_inv in Heq as (x & y & -> & Hy & ->).
  symmetry in Hy. apply fmap_app_inv in Hy as (g & z & Hg & -> & ->).
  destruct g as [|c [|]]; try discriminate.
  injection Hg as Hc. symmetry in Hc. apply lower_byte_gt in Hc as ->. by apply (Hno x z).
Qed.

Lemma slice_from_in_range (s : gostring) (lo : Z) :
  0 <= lo <= len s -> slice_from s lo = Ret (drop (Z.to_nat lo) s).
Proof.
  intros Hlo. unfold slice_from. rewrite slice_in_range by lia.
  f_equal. apply take_ge. rewrite length_drop. unfold len. lia.
Qed.

Lemma slice_to_in_range (s : gostring) (hi : Z) :
  0 <= hi <= len s -> slice_to s hi = Ret (take (Z.to_nat hi) s).
Proof.
  intros Hhi. unfold slice_to. rewrite slice_in_range by lia.
  by rewrite Z2Nat.inj_0, Nat.sub_0_r, drop_0.
Qed.

(** On ASCII input, the string an iteration stops with has no block of
    the tag left. *)
Lemma removeTags_step_stops_clean (result tagName final : gostring) :
  forallb is_ascii_byte result = true ->
  forallb is_ascii_byte tagName = true ->
  removeTags_step result (str "<" ++ tagName) (str "</" ++ tagName ++ str ">")
  = Ret (inr final) ->
  ~ has_block final tagName.
Proof.
  intros Hres Htag.
  assert (Hopen : forallb is_ascii_byte (str "<" ++ tagName) = true)
    by (by rewrite forallb_app, Htag).
  assert (Hclose : forallb is_ascii_byte (str "</" ++ tagName ++ str ">") = true)
    by (by rewrite !forallb_app, Htag).
  unfold removeTags_step, has_block.
  rewrite (ToLower_ascii result Hres), (ToLower_ascii _ Hopen), (ToLower_ascii _ Hclose).
  set (low := map lower_byte result).
  set (opening := map lower_byte (str "<" ++ tagName)).
  set (closing := map lower_byte (str "</" ++ tagName ++ str ">")).
  assert (Holen : 1 <= len opening) by (unfold opening, len; simpl; lia).
  destruct (Index low opening =? -1) eqn:Ho.
  { intros [= <-] (a & b & c & d & Hblock). fold low in Hblock.
    apply Z.eqb_eq, lacks_of_Index in Ho. by apply (Ho a (b ++ str ">" ++ c ++ closing ++ d)). }
  apply Z.eqb_neq, Index_bound in Ho as [Ho0 Ho1].
  unfold low in Ho1 at 2. rewrite len_lower in Ho1.
  set (openStart := Index low opening) in *.
  rewrite (slice_from_in_range result openStart) by lia. cbn [run_bind].
  destruct (Index (drop (Z.to_nat openStart) result) (str ">") =? -1) eqn:Hg.
  { intros [= <-] (a & b & c & d & Hblock). fold low in Hblock.
    apply Z.eqb_eq, lacks_of_Index, lacks_gt_lower in Hg.
    pose proof (Index_minimal low opening a _ Hblock) as [_ Hmin]. fold openStart in Hmin.
    apply (Hg (drop (Z.to_nat openStart) a ++ opening ++ b) (c ++ closing ++ d)).
    rewrite <- skipn_map. fold low. rewrite Hblock.
    rewrite drop_app_le by (unfold len in Hmin; lia).
    by rewrite <- !app_assoc. }
  apply Z.eqb_neq, Index_bound in Hg as [Hg0 Hg1]. change (len (str ">")) with 1 in Hg1.
  assert (Hdlen : len (drop (Z.to_nat openStart) result) = len result - openStart).
  { unfold len. rewrite length_drop. unfold len in *. lia. }
  set (openEnd := Index _ (str ">") + (openStart + 1)) in *.
  rewrite (slice_from_in_range result openEnd) by (unfold openEnd; lia). cbn [run_bind].
  assert (Hrest : forallb is_ascii_byte (drop (Z.to_nat openEnd) result) = true)
    by (by apply forallb_drop).
  rewrite (ToLower_ascii _ Hrest).
  rewrite (slice_to_in_range result openStart) by lia.
  destruct (Index _ closing =? -1) eqn:Hc.
  2:{ cbn [run_bind]. destruct (slice_from result _); discriminate. }
  cbn [run_bind]. intros [= <-] (a & b & c & d & Hblock).
  rewrite <- firstn_map in Hblock. fold low in Hblock.
  assert (Hocc : low = a ++ opening ++ (b ++ str ">" ++ c ++ closing ++ d)
                           ++ drop (Z.to_nat openStart) low).
  { rewrite <- (take_drop (Z.to_nat openStart) low) at 1. rewrite Hblock.
    by rewrite <- !app_assoc. }
  pose proof (Index_minimal low opening a _ Hocc) as [_ Hmin]. fold openStart in Hmin.
  assert (Hlen : length (take (Z.to_nat openStart) low) = Z.to_nat openStart).
  { rewrite length_take. unfold low. rewrite length_map. unfold len in *. lia. }
  rewrite Hblock, !length_app in Hlen. unfold len in *. lia.
Qed.

Lemma removeTags_loop_clean (tagName : gostring) :
  forallb is_ascii_byte tagName = true ->
  forall (fuel : nat) (result final : gostring),
    forallb is_ascii_byte result = true ->
    removeTags_loop fuel result (str "<" ++ tagName) (str "</" ++ tagName ++ str ">")
    = Ret final ->
    ~ has_block final tagName.
Proof.
  intros Htag.
  assert (Hclose : forallb is_ascii_byte (str "</" ++ tagName ++ str ">") = true)
    by (by rewrite !forallb_app, Htag).
  induction fuel as [|fuel IH]; intros result final Hres; [discriminate|].
  cbn [removeTags_loop].
  destruct (removeTags_step_ascii result (str "<" ++ tagName) _ Hres Hclose)
    as ([next|stop] & Hstep & Hascii); rewrite Hstep; cbn [run_bind].
  - by apply IH.
  - intros [= <-]. exact (removeTags_step_stops_clean result tagName stop Hres Htag Hstep).
Qed.

(** A pass over ASCII input returns an ASCII string without a block of
    the tag. *)
Lemma removeTags_pass_ascii (html tagName : gostring) :
  forallb is_ascii_byte html = true ->
  forallb is_ascii_byte tagName = true ->
  exists cleaned,
    removeTagsAndContent html tagName = Ret cleaned /\
    forallb is_ascii_byte cleaned = true /\
    ~ has_block cleaned tagName.
Proof.
  intros Hhtml Htag. unfold removeTagsAndContent.
  assert (Hclose : forallb is_ascii_byte (str "</" ++ tagName ++ str ">") = true)
    by (by rewrite !forallb_app, Htag).
  destruct (removeTags_loop_ascii (str "<" ++ tagName) _ Hclose
              (S (length html)) html ltac:(lia) Hhtml) as (r & Hrun & Hr).
  exists r. split; [done|]. split; [done|].
  exact (removeTags_loop_clean tagName Htag _ html r Hhtml Hrun).
Qed.

(** X2. On ASCII input a pass removes every block of its tag: it
    returns, and in what it returns no opening of the tag is followed by
    [>] and then by the closing tag, whatever the case of the letters. *)
Theorem removeTagsAndContent_leaves_no_block (html tagName : gostring) :
  forallb is_ascii_byte html = true ->
  forallb is_ascii_byte tagName = true ->
  exists cleaned,
    removeTagsAndContent html tagName = Ret cleaned /\
    forallb is_ascii_byte cleaned = true /\
    ~ has_block cleaned tagName.
Proof. exact (removeTags_pass_ascii html tagName). Qed.

(** X3. On ASCII input the cleanup returns, without a panic, an ASCII
    fragment in which no style block is left. *)
Theorem cleanupHTML_ascii_clean (html : gostring) :
  forallb is_ascii_byte html = true ->
  exists cleaned,
    cleanupHTML html = Ret cleaned /\
    forallb is_ascii_byte cleaned = true /\
    ~ has_block cleaned (str "style").
Proof.
  intros Hhtml. unfold cleanupHTML.
  destruct (removeTags_pass_ascii html (str "script") Hhtml eq_refl)
    as (r & -> & Hr & _).
  cbn [run_bind].
  apply (removeTags_pass_ascii r (str "style") Hr eq_refl).
Qed.

End NoBlock.
Section Passes.
Context `{GoLib}.

(** An iteration on ASCII input, by the positions it finds: of the
    opening, of the [>] after it, and of the closing tag after that. *)
Lemma removeTags_step_ascii_cases (result tagName : gostring) :
  forallb is_ascii_byte result = true ->
  forallb is_ascii_byte tagName = true ->
  let opening := map lower_byte (str "<" ++ tagName) in
  let closing := map lower_byte (str "</" ++ tagName ++ str ">") in
  let o := Index (map lower_byte result) opening in
  let g := Index (drop (Z.to_nat o) result) (str ">") in
  let e := g + (o + 1) in
  let c := Index (map lower_byte (drop (Z.to_nat e) result)) closing in
  removeTags_step result (str "<" ++ tagName) (str "</" ++ tagName ++ str ">")
  = if o =? -1 then Ret (inr result)
    else if g =? -1 then Ret (inr result)
    else if c =? -1 then Ret (inr (take (Z.to_nat o) result))
    else Ret (inl (take (Z.to_nat o) result
                   ++ drop (Z.to_nat (c + e + len closing)) result)).
Proof.
  intros Hres Htag opening closing o g e c.
  assert (Hopen : forallb is_ascii_byte (str "<" ++ tagName) = true)
    by (by rewrite forallb_app, Htag).
  assert (Hclose : forallb is_ascii_byte (str "</" ++ tagName ++ str ">") = true)
    by (by rewrite !forallb_app, Htag).
  unfold removeTags_step.
  rewrite (ToLower_ascii result Hres), (ToLower_ascii _ Hopen), (ToLower_ascii _ Hclose).
  fold opening closing o.
  destruct (o =? -1) eqn:Ho; [reflexivity|].
  apply Z.eqb_neq, Index_bound in Ho as [Ho0 Ho1]. fold o in Ho0.
  rewrite len_lower in Ho1. fold o in Ho1.
  pose proof (len_nonneg opening) as Hlo.
  rewrite (slice_from_in_range result o) by lia. cbn [run_bind]. fold g.
  destruct (g =? -1) eqn:Hg; [reflexivity|].
  apply Z.eqb_neq, Index_bound in Hg as [Hg0 Hg1]. fold g in Hg0, Hg1.
  change (len (str ">")) with 1 in Hg1.
  assert (Hdlen : len (drop (Z.to_nat o) result) = len result - o).
  { unfold len. rewrite length_drop. unfold len in *. lia. }
  fold e. rewrite (slice_from_in_range result e) by (unfold e; lia). cbn [run_bind].
  assert (Hrest : forallb is_ascii_byte (drop (Z.to_nat e) result) = true)
    by (by apply forallb_drop).
  rewrite (ToLower_ascii _ Hrest). fold c.
  rewrite (slice_to_in_range result o) by lia. cbn [run_bind].
  destruct (c =? -1) eqn:Hc; [reflexivity|].
  apply Z.eqb_neq, Index_bound in Hc as [Hc0 Hc1]. fold c in Hc0, Hc1.
  rewrite len_lower in Hc1.
  assert (Helen : len (drop (Z.to_nat e) result) = len result - e).
  { unfold len. rewrite length_drop. unfold len in *. lia. }
  replace (len (str "</" ++ tagName ++ str ">")) with (len closing)
    by (unfold closing; apply len_lower).
  pose proof (len_nonneg closing) as Hlc.
  rewrite (slice_from_in_range result (c + e + len closing)) by (unfold e in *; lia).
  reflexivity.
Qed.

Lemma lacks_suffix (s sub : gostring) (n : nat) :
  lacks s sub -> lacks (drop n s) sub.
Proof.
  intros Hno pre post Heq. apply (Hno (take n s ++ pre) post).
  rewrite <- app_assoc, <- Heq. by rewrite take_drop.
Qed.

(** X4. An opening tag that ends with [>] and is not closed takes the
    rest of the fragment with it: when the first opening of the tag is
    followed by a [>] and no closing tag occurs from that opening on, a
    pass over ASCII input returns what is before the opening, and
    everything from it on is lost. *)
Theorem removeTagsAndContent_unterminated (pre attrs body tagName : gostring) :
  let opening := str "<" ++ tagName in
  let html := pre ++ opening ++ attrs ++ str ">" ++ body in
  forallb is_ascii_byte html = true ->
  forallb is_ascii_byte tagName = true ->
  first_occurrence (map lower_byte html) (map lower_byte opening)
    (map lower_byte pre) (map lower_byte (attrs ++ str ">" ++ body)) ->
  lacks (map lower_byte (opening ++ attrs ++ str ">" ++ body))
        (map lower_byte (str "</" ++ tagName ++ str ">")) ->
  removeTagsAndContent html tagName = Ret pre.
Proof.
  intros opening html Hhtml Htag Hfirst Hopen.
  set (tail := opening ++ attrs ++ str ">" ++ body) in *.
  unfold removeTagsAndContent. cbn [removeTags_loop].
  rewrite (removeTags_step_ascii_cases html tagName Hhtml Htag). cbv zeta.
  fold opening. rewrite (Index_first _ _ _ _ Hfirst), len_lower.
  pose proof (len_nonneg pre) as Hpre.
  replace (len pre =? -1) with false by (symmetry; apply Z.eqb_neq; lia).
  replace (Z.to_nat (len pre)) with (length pre) by (unfold len; lia).
  assert (Hdrop : drop (length pre) html = tail) by apply drop_app_length.
  assert (Htake : take (length pre) html = pre) by apply take_app_length.
  rewrite Hdrop, Htake.
  pose proof (Index_minimal tail (str ">") (opening ++ attrs) body) as [Hg0 Hg1].
  { unfold tail. by rewrite <- !app_assoc. }
  set (g := Index tail (str ">")) in *.
  replace (g =? -1) with false by (symmetry; apply Z.eqb_neq; lia).
  replace (Z.to_nat (g + (len pre + 1))) with (length pre + Z.to_nat (g + 1))%nat
    by (unfold len; lia).
  rewrite <- drop_drop, Hdrop, <- skipn_map.
  by rewrite (Index_lacks _ _ (lacks_suffix _ _ _ Hopen)).
Qed.

Lemma free_of_lacks (c : ascii) (s : gostring) : free_of c s -> lacks s [c].
Proof.
  intros Hfree pre post ->. apply Hfree. apply in_or_app. right. by left.
Qed.

(** X25. An opening tag that never ends stops the pass: when no [>]
    occurs from the first opening of the tag on, a pass over ASCII input
    returns the input as it is, whatever follows. *)
Theorem removeTagsAndContent_malformed_opening (pre rest tagName : gostring) :
  let opening := str "<" ++ tagName in
  let html := pre ++ opening ++ rest in
  forallb is_ascii_byte html = true ->
  forallb is_ascii_byte tagName = true ->
  first_occurrence (map lower_byte html) (map lower_byte opening)
    (map lower_byte pre) (map lower_byte rest) ->
  free_of ">" (opening ++ rest) ->
  removeTagsAndContent html tagName = Ret html.
Proof.
  intros opening html Hhtml Htag Hfirst Hfree.
  unfold removeTagsAndContent. cbn [removeTags_loop].
  rewrite (removeTags_step_ascii_cases html tagName Hhtml Htag). cbv zeta.
  fold opening. rewrite (Index_first _ _ _ _ Hfirst), len_lower.
  pose proof (len_nonneg pre) as Hpre.
  replace (len pre =? -1) with false by (symmetry; apply Z.eqb_neq; lia).
  replace (Z.to_nat (len pre)) with (length pre) by (unfold len; lia).
  assert (Hdrop : drop (length pre) html = opening ++ rest) by apply drop_app_length.
  rewrite Hdrop.
  by rewrite (Index_lacks _ (str ">") (free_of_lacks _ _ Hfree)).
Qed.

End Passes.
Ltac literals :=
  rewrite ?map_app;
  repeat match goal with
         | |- context [map lower_byte (str ?s)] =>
           let v := eval vm_compute in (map lower_byte (str s)) in
           change (map lower_byte (str s)) with v
         end;
  repeat match goal with
         | |- context [str ?s] =>
           let v := eval vm_compute in (str s) in change (str s) with v
         end;
  cbn [app].

Section Uncover.
Context `{GoLib}.

Lemma index_from_next (c : ascii) (s sub : gostring) (i : Z) :
  HasPrefix (c :: s) sub = false ->
  index_from (c :: s) sub i = index_from s sub (i + 1).
Proof. intros Hp. rewrite index_from_unfold. by rewrite Hp. Qed.

Lemma index_from_here (s sub : gostring) (i : Z) :
  HasPrefix s sub = true -> index_from s sub i = i.
Proof. intros Hp. rewrite index_from_unfold. by rewrite Hp. Qed.

Lemma index_from_free (d : ascii) (sub rest : gostring) :
  forall (x : gostring) (i : Z),
    free_of d x ->
    index_from (x ++ rest) (d :: sub) i = index_from rest (d :: sub) (i + len x).
Proof.
  induction x as [|a x IH]; intros i Hfree; simpl app.
  - f_equal. unfold len. simpl. lia.
  - rewrite index_from_next.
    + rewrite IH by (intros Hin; apply Hfree; by right).
      f_equal. unfold len. simpl length. lia.
    + simpl. destruct (Ascii.eqb a d) eqn:Had; [|reflexivity].
      apply Ascii.eqb_eq in Had as ->. destruct Hfree. by left.
Qed.

Lemma lower_byte_lt (c : ascii) : lower_byte c = "<"%char -> c = "<"%char.
Proof.
  destruct c as [[|] [|] [|] [|] [|] [|] [|] [|]]; vm_compute; congruence.
Qed.

Lemma free_of_lt_lower (x : gostring) :
  free_of "<" x -> free_of "<" (map lower_byte x).
Proof.
  intros Hfree Hin. apply in_map_iff in Hin as (c & Hc & Hin).
  apply lower_byte_lt in Hc as ->. by apply Hfree.
Qed.

Ltac scan :=
  repeat first
    [ rewrite index_from_next by reflexivity
    | rewrite index_from_free by assumption ].

(** X5. The passes are not repeated, so the cleanup can leave a script
    block: when the opening of a script tag is interrupted by a style
    block, the first pass finds no script tag, the second removes the
    style block, and what is returned has a script block that the input
    did not show. *)
Theorem cleanupHTML_can_uncover_script (x y : gostring) :
  forallb is_ascii_byte x = true -> forallb is_ascii_byte y = true ->
  free_of "<" x -> free_of "<" y ->
  cleanupHTML (str "<scr<style>" ++ x ++ str "</style>ipt>" ++ y ++ str "</script>")
  = Ret (str "<script>" ++ y ++ str "</script>") /\
  has_block (str "<script>" ++ y ++ str "</script>") (str "script").
Proof.
  intros Hx Hy Fx Fy.
  pose proof (free_of_lt_lower x Fx) as Flx.
  pose proof (free_of_lt_lower y Fy) as Fly.
  set (html := str "<scr<style>" ++ x ++ str "</style>ipt>" ++ y ++ str "</script>").
  set (uncovered := str "<script>" ++ y ++ str "</script>").
  assert (Hhtml : forallb is_ascii_byte html = true).
  { unfold html. by rewrite !forallb_app, Hx, Hy. }
  assert (Huncovered : forallb is_ascii_byte uncovered = true).
  { unfold uncovered. by rewrite !forallb_app, Hy. }
  assert (Hscript : removeTagsAndContent html (str "script") = Ret html).
  { apply removeTagsAndContent_no_opening.
    rewrite (ToLower_ascii html Hhtml), (ToLower_ascii _ (eq_refl : forallb is_ascii_byte (str "<" ++ str "script") = true)).
    apply lacks_of_Index. unfold Index, html. literals. scan. reflexivity. }
  assert (Hcut : removeTags_step html (str "<" ++ str "style")
                   (str "</" ++ str "style" ++ str ">") = Ret (inl uncovered)).
  { rewrite (removeTags_step_ascii_cases html (str "style") Hhtml eq_refl). cbv zeta.
    assert (Ho : Index (map lower_byte html) (map lower_byte (str "<" ++ str "style")) = 4).
    { unfold Index, html. literals. scan. by rewrite index_from_here. }
    rewrite Ho. change (Z.to_nat 4) with 4%nat.
    assert (Hg : Index (drop 4 html) (str ">") = 6).
    { unfold Index, html. literals. cbn [drop]. scan. by rewrite index_from_here. }
    rewrite Hg. change (Z.to_nat (6 + (4 + 1))) with 11%nat.
    assert (Hrest : drop 11 html = x ++ str "</style>ipt>" ++ y ++ str "</script>")
      by reflexivity.
    rewrite Hrest.
    assert (Hc : Index (map lower_byte (x ++ str "</style>ipt>" ++ y ++ str "</script>"))
                   (map lower_byte (str "</" ++ str "style" ++ str ">")) = len x).
    { unfold Index. literals. scan. rewrite index_from_here by reflexivity.
      by rewrite len_lower. }
    rewrite Hc. pose proof (len_nonneg x) as Hlx.
    change (4 =? -1) with false. change (6 =? -1) with false.
    replace (len x =? -1) with false by (symmetry; apply Z.eqb_neq; lia).
    cbv iota.
    assert (Hsplit : html = (str "<scr<style>" ++ x ++ str "</style>")
                              ++ str "ipt>" ++ y ++ str "</script>").
    { unfold html. by rewrite <- !app_assoc. }
    replace (Z.to_nat _) with (length (str "<scr<style>" ++ x ++ str "</style>")).
    2:{ rewrite len_lower, !length_app. unfold len.
        change (length (str "<scr<style>")) with 11%nat.
        change (length (str "</style>")) with 8%nat.
        change (length (str "</" ++ str "style" ++ str ">")) with 8%nat. lia. }
    rewrite Hsplit at 2. rewrite drop_app_length. reflexivity. }
  assert (Hstop : removeTags_step uncovered (str "<" ++ str "style")
                    (str "</" ++ str "style" ++ str ">") = Ret (inr uncovered)).
  { rewrite (removeTags_step_ascii_cases uncovered (str "style") Huncovered eq_refl). cbv zeta.
    assert (Ho : Index (map lower_byte uncovered) (map lower_byte (str "<" ++ str "style")) = -1).
    { unfold Index, uncovered. literals. scan. reflexivity. }
    by rewrite Ho. }
  split.
  - unfold cleanupHTML. rewrite Hscript. cbn [run_bind].
    unfold removeTagsAndContent.
    rewrite (removeTags_loop_goes_on _ html uncovered) by exact Hcut.
    destruct (length html) as [|fuel] eqn:Hlen; [discriminate|].
    by apply removeTags_loop_stops.
  - exists [], [], (map lower_byte y), []. unfold uncovered. literals. reflexivity.
Qed.

End Uncover.
Section InvalidBytes.
Context `{GoLib}.

Lemma DecodeRuneInString_invalid (t : gostring) :
  DecodeRuneInString (byte_chr 255 :: t) = (RuneError, 1%nat).
Proof. by destruct t as [|b1 [|b2 [|b3 t]]]. Qed.

Lemma runes_invalid_cons (t : gostring) :
  runes (byte_chr 255 :: t) = RuneError :: runes t.
Proof.
  unfold runes. change (length (byte_chr 255 :: t)) with (S (length t)).
  cbn [runes_loop]. by rewrite DecodeRuneInString_invalid.
Qed.

Lemma runes_invalid (n : nat) (s : gostring) :
  runes (replicate n (byte_chr 255) ++ s) = replicate n RuneError ++ runes s.
Proof.
  induction n as [|n IH]; [reflexivity|].
  change (runes (byte_chr 255 :: replicate n (byte_chr 255) ++ s)
          = RuneError :: replicate n RuneError ++ runes s).
  by rewrite runes_invalid_cons, IH.
Qed.

Lemma ToLower_invalid (n : nat) (s : gostring) :
  unicode_lower_table 65533 = 65533%N ->
  ToLower (replicate (S n) (byte_chr 255) ++ s)
  = concat (replicate (S n) (encode_rune RuneError)) ++ Map unicode_ToLower s.
Proof.
  intros Htable.
  assert (Hna : forallb is_ascii_byte (replicate (S n) (byte_chr 255) ++ s) = false)
    by reflexivity.
  unfold ToLower. rewrite Hna.
  unfold Map. rewrite runes_invalid, flat_map_app. f_equal.
  generalize (S n). intros m. induction m as [|m IH]; [reflexivity|].
  simpl replicate. cbn [flat_map concat]. rewrite IH. f_equal.
  unfold unicode_ToLower. change (RuneError <=? 127)%N with false. cbv iota.
  unfold RuneError. by rewrite Htable.
Qed.

Lemma free_of_replacement (m : nat) :
  free_of "<" (concat (replicate m (encode_rune RuneError))).
Proof.
  induction m as [|m IH]; [by intros []|].
  simpl replicate. cbn [concat]. intros Hin. apply in_app_or in Hin as [Hin|Hin].
  - vm_compute in Hin. by destruct Hin as [?|[?|[?|[]]]].
  - by apply IH.
Qed.

(** X7. A byte that is not UTF-8 takes three bytes in the lower-cased
    copy. After four or more of them the position of a script tag in
    the copy lies beyond the end of the original, and the cleanup
    aborts with a panic. *)
Theorem cleanupHTML_panics_after_invalid_bytes (n : nat) :
  unicode_lower_table 65533 = 65533%N ->
  (4 <= n)%nat ->
  cleanupHTML (replicate n (byte_chr 255) ++ str "<script") = Panic.
Proof.
  intros Htable Hn. destruct n as [|n]; [lia|].
  set (html := replicate (S n) (byte_chr 255) ++ str "<script").
  assert (Hstep : removeTags_step html (str "<" ++ str "script")
                    (str "</" ++ str "script" ++ str ">") = Panic).
  { unfold removeTags_step, html. rewrite (ToLower_invalid n _ Htable).
    assert (Hmap : Map unicode_ToLower (str "<script") = str "<script")
      by (vm_compute; reflexivity).
    assert (Htag : ToLower (str "<" ++ str "script") = str "<script")
      by (vm_compute; reflexivity).
    rewrite Hmap, Htag.
    assert (Ho : Index (concat (replicate (S n) (encode_rune RuneError)) ++ str "<script")
                   (str "<script") = 3 * Z.of_nat (S n)).
    { unfold Index. change (str "<script") with ("<"%char :: str "script") at 2.
      rewrite index_from_free by apply free_of_replacement.
      rewrite index_from_here by reflexivity.
      unfold len. clear. induction (S n) as [|m IH]; [reflexivity|].
      simpl replicate. cbn [concat]. rewrite length_app.
      change (length (encode_rune RuneError)) with 3%nat. lia. }
    rewrite Ho.
    replace (3 * Z.of_nat (S n) =? -1) with false by (symmetry; apply Z.eqb_neq; lia).
    unfold slice_from, slice.
    replace (len (replicate (S n) (byte_chr 255) ++ str "<script"))
      with (Z.of_nat (S n) + 7)
      by (unfold len; rewrite length_app, length_replicate;
          change (length (str "<script")) with 7%nat; lia).
    replace (3 * Z.of_nat (S n) <=? Z.of_nat (S n) + 7) with false
      by (symmetry; apply Z.leb_gt; lia).
    by rewrite andb_false_r. }
  unfold cleanupHTML, removeTagsAndContent. cbn [removeTags_loop].
  fold html. by rewrite Hstep.
Qed.

End InvalidBytes.
Section HeadsMore.
Context `{GoLib} `{World}.

Lemma extractHeads_loop_dom (urls : list gostring) :
  forall (heads final : gmap gostring gostring) (w w' : W),
    extractHeads_loop urls heads w = Ret (final, w') ->
    dom final = dom heads ∪ list_to_set urls.
Proof.
  induction urls as [|u urls IH]; intros heads final w w' Hrun; simpl in Hrun.
  - unfold ret in Hrun. simplify_eq.
    by rewrite list_to_set_nil, (right_id_L ∅ (∪)).
  - unfold bind in Hrun.
    destruct (extractHeads_step heads u w) as [[heads1 w1]| |] eqn:Hstep; try discriminate.
    destruct (extractHeads_step_inserts _ _ _ _ _ Hstep) as [fragment ->].
    rewrite (IH _ _ _ _ Hrun), dom_insert_L, list_to_set_cons.
    by rewrite (comm_L (∪) {[u]} (dom heads)), (assoc_L (∪)).
Qed.

(** X8. When [extractHeads] returns, the keys of the map are the URLs it
    was given, no more and no fewer, and the error is nil. *)
Theorem extractHeads_keys_are_urls (urls : list gostring)
    (heads : gmap gostring gostring) (err : option error) (w w' : W) :
  extractHeads urls w = Ret ((heads, err), w') ->
  err = None /\ dom heads = list_to_set urls.
Proof.
  unfold extractHeads, bind.
  destruct (extractHeads_loop urls ∅ w) as [[final w1]| |] eqn:Hloop; try discriminate.
  unfold ret. intros [= <- <- _]. split; [reflexivity|].
  rewrite (extractHeads_loop_dom _ _ _ _ _ Hloop).
  by rewrite dom_empty_L, (left_id_L ∅ (∪)).
Qed.

Lemma extractHeads_loop_outage (urls : list gostring) :
  network_down ->
  forall (heads : gmap gostring gostring) (w : W),
    exists w', extractHeads_loop urls heads w
               = Ret (foldl (fun m u => <[u := []]> m) heads urls, w').
Proof.
  intros Hdown. induction urls as [|u urls IH]; intros heads w; simpl.
  - by exists w.
  - destruct (Hdown u w) as (msg & w1 & Hget).
    unfold bind at 1. unfold extractHeads_step, bind, lift, effect, ret. rewrite Hget.
    apply IH.
Qed.

Lemma foldl_insert_empty_lookup (urls : list gostring) :
  forall (heads : gmap gostring gostring) (url : gostring),
    url ∈ urls ->
    foldl (fun m u => <[u := []]> m) heads urls !! url = Some [].
Proof.
  induction urls as [|u urls IH]; intros heads url Hin; simpl.
  - by apply elem_of_nil in Hin.
  - destruct (decide (url ∈ urls)) as [Hin'|Hnot]; [by apply IH|].
    apply elem_of_cons in Hin as [->|?]; [|done].
    clear IH. revert heads. induction urls as [|v urls IHu]; intros heads; simpl.
    + by rewrite lookup_insert_eq.
    + apply not_elem_of_cons in Hnot as [Hne Hnot].
      rewrite insert_insert_ne by done. by apply IHu.
Qed.

(** X9. When every request fails, [extractHeads] does not fail: it
    returns the empty fragment for every URL. *)
Theorem extractHeads_survives_outage (urls : list gostring) (w : W) :
  network_down ->
  exists heads w',
    extractHeads urls w = Ret ((heads, None), w') /\
    dom heads = list_to_set urls /\
    forall url, url ∈ urls -> heads !! url = Some [].
Proof.
  intros Hdown.
  destruct (extractHeads_loop_outage urls Hdown ∅ w) as (w' & Hloop).
  eexists _, w'.
  assert (Hrun : extractHeads urls w
                 = Ret ((foldl (fun m u => <[u := []]> m) ∅ urls, None), w')).
  { unfold extractHeads, bind. by rewrite Hloop. }
  split; [exact Hrun|]. split.
  - rewrite (extractHeads_loop_dom _ _ _ _ _ Hloop).
    by rewrite dom_empty_L, (left_id_L ∅ (∪)).
  - intros url Hin. by apply foldl_insert_empty_lookup.
Qed.

(** A decomposition at the position [Index] returns is the first
    occurrence. *)
Lemma first_occurrence_of_Index (s sub pre post : gostring) :
  s = pre ++ sub ++ post -> Index s sub = len pre ->
  first_occurrence s sub pre post.
Proof.
  intros Heq Hidx. split; [exact Heq|].
  intros pre' post' Heq'.
  pose proof (Index_minimal s sub pre' post' Heq') as [_ Hle].
  unfold len in *. lia.
Qed.

End HeadsMore.
Section SitemapMore.
Context `{GoLib} `{World}.

Lemma flat_map_option_omap {A B} (f : A -> option B) (l : list A) :
  flat_map (fun x => match f x with Some y => [y] | None => [] end) l = omap f l.
Proof.
  induction l as [|x l IH]; csimpl; [reflexivity|].
  rewrite IH. by destruct (f x).
Qed.

Lemma urlset_loop_first_locations (urlset : Element) :
  urlset_loop (url_entries urlset) = first_locations urlset.
Proof.
  rewrite urlset_loop_first_loc. unfold first_locations.
  rewrite <- flat_map_option_omap. apply flat_map_ext. intros u.
  unfold SelectElement, loc_children, SelectElements. rewrite find_head_filter.
  by destruct (head _).
Qed.

Lemma omap_length_le {A B} (f : A -> option B) (l : list A) :
  (length (omap f l) <= length l)%nat.
Proof.
  induction l as [|x l IH]; csimpl; [lia|]. destruct (f x); csimpl; lia.
Qed.

(** X11. Whatever the entries of a served URL set look like, resolution
    returns, for every [<url>] entry that has a [<loc>], the text of its
    first [<loc>], in document order: an entry without [<loc>] is
    skipped, and a second [<loc>] of an entry is not read. *)
Theorem getURLsFromSitemap_first_loc_of_each (fuel : nat) (siteURL : gostring)
    (doc : Document) (urlset : Element) (w w' : W) :
  serves (siteURL ++ str "/sitemap.xml") doc w w' ->
  urlset_document doc urlset ->
  getURLsFromSitemap (S fuel) siteURL w = Ret ((first_locations urlset, None), w') /\
  (length (first_locations urlset) <= length (url_entries urlset))%nat.
Proof.
  intros (resp & Hget & Hstatus & Hread) Hdoc.
  destruct (urlset_document_select doc urlset Hdoc) as [Hidx Hset].
  split; [|apply omap_length_le].
  unfold getURLsFromSitemap. rewrite parseXMLSitemap_S.
  unfold parseXMLSitemap_body, bind, lift. rewrite Hget, Hstatus, Z.eqb_refl. cbn [negb].
  rewrite Hread, Hidx, Hset. unfold ret. do 3 f_equal.
  apply urlset_loop_first_locations.
Qed.

(** X12. Resolving a served index never reports an error, however many
    of its sub-sitemaps fail: when it returns, the error is nil. *)
Theorem parseXMLSitemap_index_never_fails (fuel : nat) (sitemapURL : gostring)
    (doc : Document) (sitemapIndex : Element)
    (urls : list gostring) (err : option error) (w w0 w' : W) :
  serves sitemapURL doc w w0 ->
  index_document doc sitemapIndex ->
  parseXMLSitemap (S fuel) sitemapURL w = Ret ((urls, err), w') ->
  err = None.
Proof.
  intros (resp & Hget & Hstatus & Hread) [-> Htag].
  rewrite parseXMLSitemap_S. unfold parseXMLSitemap_body.
  unfold bind at 1. unfold lift. rewrite Hget, Hstatus, Z.eqb_refl. cbn [negb].
  rewrite Hread.
  replace (SelectElement [sitemapIndex] (str "sitemapindex")) with (Some sitemapIndex)
    by (unfold SelectElement; simpl; unfold tag_matches; simpl; by rewrite Htag).
  unfold bind, ret.
  destruct (index_loop _ _ [] w0) as [[found w1]| |]; try discriminate.
  by intros [= _ <- _].
Qed.

(** X13. An index that is served in every world and refers to itself is
    never resolved: however deep the nesting allowed, the resolution
    does not return. *)
Theorem parseXMLSitemap_self_reference_diverges (sitemapURL : gostring)
    (doc : Document) (sitemapIndex : Element) (others : list gostring) :
  (forall w, exists w', serves sitemapURL doc w w') ->
  index_document doc sitemapIndex ->
  sub_locations sitemapIndex = sitemapURL :: others ->
  forall (fuel : nat) (w : W), parseXMLSitemap fuel sitemapURL w = OutOfFuel.
Proof.
  intros Hserved [-> Htag] Hlocs.
  induction fuel as [|fuel IH]; intros w; [reflexivity|].
  destruct (Hserved w) as (w0 & resp & Hget & Hstatus & Hread).
  rewrite parseXMLSitemap_S. unfold parseXMLSitemap_body.
  unfold bind at 1. unfold lift. rewrite Hget, Hstatus, Z.eqb_refl. cbn [negb].
  rewrite Hread.
  replace (SelectElement [sitemapIndex] (str "sitemapindex")) with (Some sitemapIndex)
    by (unfold SelectElement; simpl; unfold tag_matches; simpl; by rewrite Htag).
  unfold bind. rewrite index_loop_locations. fold (sub_locations sitemapIndex).
  rewrite Hlocs. cbn [locations_loop]. unfold bind. by rewrite IH.
Qed.

End SitemapMore.
Section FirstRevision.
Context `{GoLib} `{World}.

Lemma omap_ext_aux {A B} (f g : A -> option B) (l : list A) :
  (forall x, f x = g x) -> omap f l = omap g l.
Proof.
  intros Hfg. induction l as [|x l IH]; csimpl; [reflexivity|].
  by rewrite Hfg, IH.
Qed.

(** The loop of the first revision always returns: it appends one result
    for every entry with a [<loc>], under the category [sitemap]. *)
Lemma First_results_loop_returns (elems : list Element) :
  forall (results : list Result) (w : W),
    exists more w',
      First.results_loop elems results w = Ret (results ++ more, w') /\
      map URL more
      = omap (fun u => Text <$> SelectElement (Child u) (str "loc")) elems /\
      Forall (fun r => Category r = str "sitemap") more.
Proof.
  induction elems as [|u elems IH]; intros results w; cbn [First.results_loop].
  - exists [], w. by rewrite app_nil_r.
  - csimpl. destruct (SelectElement (Child u) (str "loc")) as [loc|]; csimpl.
    + unfold bind at 1. unfold checkURLStatus. unfold bind at 1. unfold lift, ret.
      destruct (http_Get (Text loc) w) as [[msg|resp] w1];
        unfold bind, effect;
        match goal with
        | |- context [First.results_loop elems (results ++ [?r]) ?w2] =>
          destruct (IH (results ++ [r]) w2) as (more & w' & -> & Hurls & Hcat);
          exists (r :: more), w'
        end;
        (split; [by rewrite <- app_assoc|]);
        (split; [simpl; by rewrite Hurls | by constructor]).
    + apply IH.
Qed.

(** X14. The first revision, on a served URL set, never fails and never
    aborts: it returns one result for every [<url>] entry that has a
    [<loc>], in document order, with the text of the first [<loc>] as
    the URL and with the category [sitemap]. *)
Theorem First_Discover_one_result_per_entry (siteURL : gostring)
    (doc : Document) (urlset : Element) (w w0 : W) :
  serves_plain (siteURL ++ str "/sitemap.xml") doc w w0 ->
  urlset_document doc urlset ->
  exists results w',
    First.Discover siteURL w = Ret ((results, None), w') /\
    map URL results = first_locations urlset /\
    Forall (fun r => Category r = str "sitemap") results.
Proof.
  intros (resp & body & Hget & Hstatus & Hbody & Hread) Hdoc.
  destruct (urlset_document_select doc urlset Hdoc) as [_ Hset].
  destruct (First_results_loop_returns (url_entries urlset) [] w0)
    as (results & w' & Hloop & Hurls & Hcat).
  exists results, w'. split; [|split; [|exact Hcat]].
  - unfold First.Discover. unfold bind at 1. unfold lift.
    rewrite Hget, Hstatus, Z.eqb_refl. cbn [negb].
    rewrite Hbody. csimpl. rewrite Hread, Hset.
    unfold bind. fold (url_entries urlset). by rewrite Hloop.
  - rewrite Hurls. unfold first_locations. apply omap_ext_aux.
    intros u. unfold SelectElement, loc_children, SelectElements.
    by rewrite find_head_filter.
Qed.

(** X15. The first revision does not follow an index: a served document
    whose root is [<sitemapindex>] is answered with the format error,
    and no page is requested. *)
Theorem First_Discover_rejects_index (siteURL : gostring)
    (doc : Document) (sitemapIndex : Element) (w w' : W) :
  serves_plain (siteURL ++ str "/sitemap.xml") doc w w' ->
  index_document doc sitemapIndex ->
  First.Discover siteURL w = Ret (([], Some ErrInvalidSitemapFormat), w').
Proof.
  intros (resp & body & Hget & Hstatus & Hbody & Hread) [-> Htag].
  unfold First.Discover, bind, lift.
  rewrite Hget, Hstatus, Z.eqb_refl. cbn [negb].
  rewrite Hbody. csimpl. rewrite Hread.
  replace (SelectElement [sitemapIndex] (str "urlset")) with (@None Element); [done|].
  unfold SelectElement. simpl. unfold tag_matches. simpl. by rewrite Htag.
Qed.

End FirstRevision.
Section OrchestratorMore.
Context `{GoLib} `{World}.

(** X18. [Discover] never returns results together with an error. *)
Theorem Discover_error_has_no_results (fuel : nat) (siteURL siteCategory : gostring)
    (w w' : W) (results : list Result) (err : error) :
  Discover fuel siteURL siteCategory w = Ret ((results, Some err), w') ->
  results = [].
Proof.
  unfold Discover. intros Hrun. unfold bind at 1 in Hrun.
  destruct (getURLsFromSitemap fuel siteURL w) as [[[urls [e|]] w1]| |];
    try discriminate; [unfold ret in Hrun; by simplify_eq|].
  unfold bind at 1 in Hrun.
  destruct (sampleUrls siteURL urls w1) as [[sample w2]| |]; try discriminate.
  unfold bind at 1 in Hrun.
  destruct (NarrowDownURLs sample siteCategory w2) as [[[narrowed [e|]] w3]| |];
    try discriminate; [unfold ret in Hrun; by simplify_eq|].
  unfold bind at 1 in Hrun.
  destruct (extractHeads narrowed w3) as [[[heads [e|]] w4]| |];
    try discriminate; [unfold ret in Hrun; by simplify_eq|].
  unfold bind at 1 in Hrun.
  destruct (SelectAndCategorizeURLs narrowed heads siteCategory w4)
    as [[[selected [e|]] w5]| |]; try discriminate; [unfold ret in Hrun; by simplify_eq|].
  unfold bind in Hrun.
  destruct (check_loop selected w5) as [[checked w6]| |]; discriminate.
Qed.

(** X19. When the service fails a curation call, [Discover] ends there
    with the error of the call and no result; the world is the one the
    call left, so nothing is requested after it. *)
Theorem Discover_stops_at_service_failure (fuel : nat) (siteURL siteCategory : gostring)
    (w w' : W) :
  meets_answer LLMErr fuel siteURL siteCategory w w' ->
  Discover fuel siteURL siteCategory w = Ret (([], Some ErrCallLLM), w').
Proof.
  intros [(urls & w1 & sample & w2 & Hmap & Hsample & Hllm)
         |(urls & w1 & sample & w2 & narrowed & w3 & heads & w4
           & Hmap & Hsample & Hnarrow & Hheads & Hllm)].
  - unfold Discover, bind. rewrite Hmap, Hsample.
    unfold NarrowDownURLs, bind, lift. fold (narrow_request sample siteCategory).
    by rewrite Hllm.
  - unfold Discover, bind. rewrite Hmap, Hsample, Hnarrow, Hheads.
    unfold SelectAndCategorizeURLs, bind, lift.
    fold (select_request narrowed heads siteCategory). by rewrite Hllm.
Qed.

(** X20. The curation calls read the first choice of the answer without
    looking at their number: when the service answers a call without an
    error and without a choice, [Discover] aborts with a panic. *)
Theorem Discover_panics_without_choice (fuel : nat) (siteURL siteCategory : gostring)
    (w w' : W) :
  meets_answer (LLMChoices []) fuel siteURL siteCategory w w' ->
  Discover fuel siteURL siteCategory w = Panic.
Proof.
  intros [(urls & w1 & sample & w2 & Hmap & Hsample & Hllm)
         |(urls & w1 & sample & w2 & narrowed & w3 & heads & w4
           & Hmap & Hsample & Hnarrow & Hheads & Hllm)].
  - unfold Discover, bind. rewrite Hmap, Hsample.
    unfold NarrowDownURLs, bind, lift. fold (narrow_request sample siteCategory).
    by rewrite Hllm.
  - unfold Discover, bind. rewrite Hmap, Hsample, Hnarrow, Hheads.
    unfold SelectAndCategorizeURLs, bind, lift.
    fold (select_request narrowed heads siteCategory). by rewrite Hllm.
Qed.

(** X21. The status check never aborts: it returns for every list of
    results in every world, with the URLs and the categories as they
    were and in the same order; a status that came with an entry plays
    no part. *)
Theorem check_loop_always_returns (selected : list Result) : forall (w : W),
  exists checked w',
    check_loop selected w = Ret (checked, w') /\
    map URL checked = map URL selected /\
    map Category checked = map Category selected /\
    check_loop (map clear_status selected) w = Ret (checked, w').
Proof.
  induction selected as [|r selected IH]; intros w; simpl.
  - by exists [], w.
  - unfold checkURLStatus. unfold bind, lift, ret.
    destruct (http_Get (URL r) w) as [[msg|resp] w1];
      destruct (IH w1) as (checked & w2 & Hrun & Hu & Hc & Hclear);
      cbn [URL Category clear_status]; rewrite Hrun, Hclear; eexists _, w2;
      (split; [reflexivity|]); simpl; by rewrite Hu, Hc.
Qed.

End OrchestratorMore.
Section CommaList.
Context `{GoLib}.

Lemma comma_free_first (pre post : gostring) :
  free_of "," pre -> first_occurrence (pre ++ str "," ++ post) (str ",") pre post.
Proof.
  intros Hfree. split; [reflexivity|].
  intros pre' post' Heq.
  destruct (Nat.le_gt_cases (length pre) (length pre')) as [?|Hlt]; [done|].
  exfalso. apply Hfree.
  assert (Hl : (pre ++ str "," ++ post) !! length pre' = Some ","%char).
  { rewrite Heq. by apply list_lookup_middle. }
  rewrite lookup_app_l in Hl by done.
  apply list_elem_of_In. by eapply list_elem_of_lookup_2.
Qed.

Lemma comma_free_lacks (s : gostring) : free_of "," s -> lacks s (str ",").
Proof.
  intros Hfree pre post ->. apply Hfree. apply in_or_app. right. by left.
Qed.

Lemma Join_cons (p q : gostring) (ps : list gostring) (sep : gostring) :
  Join (p :: q :: ps) sep = p ++ sep ++ Join (q :: ps) sep.
Proof. unfold Join. simpl. by rewrite <- !app_assoc. Qed.

Lemma Join_singleton (p sep : gostring) : Join [p] sep = p.
Proof. unfold Join. simpl. apply app_nil_r. Qed.

(** Splitting at the commas gives back the pieces that were joined. *)
Lemma Split_loop_Join (ps : list gostring) : forall (p : gostring) (fuel : nat),
  Forall (free_of ",") (p :: ps) ->
  (length (Join (p :: ps) (str ",")) <= fuel)%nat ->
  Prev.Split_loop fuel (Join (p :: ps) (str ",")) (str ",") = p :: ps.
Proof.
  induction ps as [|q ps IH]; intros p fuel Hfree Hfuel.
  - apply Forall_cons in Hfree as [Hp _].
    rewrite Join_singleton.
    destruct fuel as [|fuel]; [reflexivity|].
    cbn [Prev.Split_loop].
    by rewrite (Index_lacks _ _ (comma_free_lacks p Hp)).
  - apply Forall_cons in Hfree as [Hp Hrest].
    rewrite Join_cons in Hfuel |- *.
    destruct fuel as [|fuel];
      [rewrite !length_app in Hfuel; change (length (str ",")) with 1%nat in Hfuel; lia|].
    cbn [Prev.Split_loop].
    rewrite (Index_first _ _ _ _ (comma_free_first p _ Hp)).
    rewrite (proj2 (Z.ltb_ge (len p) 0) (len_nonneg p)).
    unfold len. rewrite Nat2Z.id, take_app_length. f_equal.
    replace (drop (length p + length (str ",")) (p ++ str "," ++ Join (q :: ps) (str ",")))
      with (Join (q :: ps) (str ",")).
    2:{ rewrite app_assoc. symmetry. apply drop_app_length'. by rewrite length_app. }
    apply IH; [done|]. rewrite !length_app in Hfuel.
    change (length (str ",")) with 1%nat in Hfuel. lia.
Qed.

Lemma Split_Join (p : gostring) (ps : list gostring) :
  Forall (free_of ",") (p :: ps) ->
  Prev.Split (Join (p :: ps) (str ",")) (str ",") = p :: ps.
Proof. intros Hfree. unfold Prev.Split. by apply Split_loop_Join. Qed.

Lemma commas_cons (c : ascii) (s : gostring) :
  commas (c :: s) = if Ascii.eqb c "," then S (commas s) else commas s.
Proof. unfold commas. simpl. by destruct (Ascii.eqb c ","). Qed.

(** Every string is comma-free pieces joined by commas. *)
Lemma pieces_exist (s : gostring) :
  exists p ps, Forall (free_of ",") (p :: ps) /\ s = Join (p :: ps) (str ",") /\
               commas s = length ps.
Proof.
  induction s as [|c s (p & ps & Hfree & -> & Hcount)].
  - exists [], []. split; [|done]. repeat constructor. by intros [].
  - destruct (Ascii.eqb c ",") eqn:Hc.
    + apply Ascii.eqb_eq in Hc as ->.
      exists [], (p :: ps). split; [|split].
      * constructor; [by intros []|done].
      * by rewrite Join_cons.
      * rewrite commas_cons, Hcount. reflexivity.
    + exists (c :: p), ps. apply Forall_cons in Hfree as [Hp Hps]. split; [|split].
      * constructor; [|done]. intros [->|Hin]; [by rewrite Ascii.eqb_refl in Hc | by apply Hp].
      * by destruct ps.
      * replace (c :: Join (p :: ps) (str ",")) with (c :: Join (p :: ps) (str ","))
          by reflexivity.
        rewrite commas_cons, Hc. exact Hcount.
Qed.

(** X22. A comma-separated answer always gives one entry more than it has
    commas: the empty answer gives one empty entry, never an empty list. *)
Theorem parseCommaSeparated_count (input : gostring) :
  length (Prev.parseCommaSeparated input) = S (commas input).
Proof.
  destruct (pieces_exist input) as (p & ps & Hfree & -> & ->).
  unfold Prev.parseCommaSeparated, Prev.splitAndTrim.
  by rewrite length_map, Split_Join.
Qed.

Lemma TrimSpace_trimmed (lead u trail : gostring) :
  forallb json_space lead = true -> forallb json_space trail = true ->
  trimmed u -> TrimSpace (lead ++ u ++ trail) = u.
Proof.
  intros Hlead Htrail [(c & rest & Hu & Hc & Hnc) (front & d & Hu' & Hd & Hnd)].
  induction lead as [|b lead IH]; simpl app.
  - assert (Hrev : rev (u ++ trail) = rev trail ++ d :: rev front).
    { rewrite rev_app_distr, Hu', rev_app_distr. reflexivity. }
    rewrite Hu at 1. simpl app. cbn [TrimSpace]. rewrite Hc, Hnc. cbn [negb].
    change (c :: rest ++ trail) with ((c :: rest) ++ trail). rewrite <- Hu, Hrev.
    rewrite trim_space_stop_spaces by done.
    rewrite Hu'. simpl. by rewrite rev_involutive.
  - apply andb_prop in Hlead as [Hb Hlead].
    destruct (json_space_ascii_space b Hb) as [Ha Hs].
    cbn [TrimSpace]. rewrite Ha, Hs. simpl. by apply IH.
Qed.

Lemma Join_comma_space (p : gostring) (ps : list gostring) :
  Join (p :: ps) (str ", ") = Join (p :: map (fun q => str " " ++ q) ps) (str ",").
Proof.
  unfold Join. f_equal. induction ps as [|q ps IH]; [done|].
  cbn [flat_map map]. rewrite <- IH.
  change (str ", ") with (str "," ++ str " "). by rewrite <- !app_assoc.
Qed.

(** X23. Round trip: URLs without commas, joined by a comma and a space, are
    read back as they were. *)
Theorem parseCommaSeparated_round_trip (url : gostring) (urls : list gostring) :
  Forall (free_of ",") (url :: urls) ->
  Forall trimmed (url :: urls) ->
  Prev.parseCommaSeparated (Join (url :: urls) (str ", ")) = url :: urls.
Proof.
  intros Hfree Htrim.
  apply Forall_cons in Hfree as [Hp Hps]. apply Forall_cons in Htrim as [Tp Tps].
  unfold Prev.parseCommaSeparated, Prev.splitAndTrim.
  rewrite Join_comma_space, Split_Join.
  2:{ constructor; [done|]. apply Forall_map. eapply Forall_impl; [exact Hps|].
      intros q Hq [Hin|Hin]; [discriminate | by apply Hq]. }
  cbn [map]. f_equal.
  - pose proof (TrimSpace_trimmed [] url [] eq_refl eq_refl Tp) as Ht.
    simpl in Ht. by rewrite app_nil_r in Ht.
  - rewrite map_map. clear Hps. induction Tps as [|q qs Tq _ IH]; [done|].
    cbn [map]. f_equal; [|exact IH].
    pose proof (TrimSpace_trimmed (str " ") q [] eq_refl eq_refl Tq) as Ht.
    by rewrite app_nil_r in Ht.
Qed.

(** X24. Only a fence that opens with the language name is taken off. From a
    bracketed text inside a plain fence the closing marker goes and the
    opening one stays, so a decoder that rejects a leading backquote
    rejects the text: both parsers return the JSON parse error. *)
Theorem plain_fence_is_not_stripped (t : gostring) :
  rejects_backquote json_Unmarshal_strings ->
  rejects_backquote json_Unmarshal_results ->
  json_array_text t ->
  unfenced (plain_fenced t) = fence_close ++ nl ++ t ++ nl /\
  parseJSONURLs (plain_fenced t) = ([], Some ErrParseJSON) /\
  parseJSONResponse (plain_fenced t) = ([], Some ErrParseJSON).
Proof.
  intros Hs Hr (lead & mid & trail & -> & Hlead & Htrail).
  set (t := lead ++ str "[" ++ mid ++ str "]" ++ trail).
  assert (Hun : unfenced (plain_fenced t) = fence_close ++ nl ++ t ++ nl).
  { unfold unfenced, plain_fenced.
    replace (TrimPrefix _ fence_open) with (fence_close ++ nl ++ t ++ nl ++ fence_close)
      by reflexivity.
    rewrite !app_assoc. rewrite TrimSuffix_app. by rewrite <- !app_assoc. }
  split; [exact Hun|]. split.
  - unfold parseJSONURLs. fold (unfenced (plain_fenced t)). rewrite Hun.
    assert (Htrim : TrimSpace (fence_close ++ nl ++ t ++ nl)
                    = fence_close ++ nl ++ lead ++ str "[" ++ mid ++ str "]").
    { replace (fence_close ++ nl ++ t ++ nl)
        with ([] ++ (fence_close ++ nl ++ lead ++ str "[" ++ mid ++ str "]")
                 ++ (trail ++ nl))
        by (unfold t; rewrite app_nil_l, <- !app_assoc; reflexivity).
      apply TrimSpace_trimmed; [done | by rewrite forallb_app, Htrail |].
      split.
      - by exists "`"%char, (str "``" ++ nl ++ lead ++ str "[" ++ mid ++ str "]").
      - exists (fence_close ++ nl ++ lead ++ str "[" ++ mid), "]"%char.
        split; [by rewrite <- !app_assoc | done]. }
    rewrite Htrim.
    change (fence_close ++ nl ++ lead ++ str "[" ++ mid ++ str "]")
      with (str "`" ++ (str "``" ++ nl ++ lead ++ str "[" ++ mid ++ str "]")).
    by rewrite Hs.
  - unfold parseJSONResponse. fold (unfenced (plain_fenced t)). rewrite Hun.
    change (fence_close ++ nl ++ t ++ nl) with (str "`" ++ (str "``" ++ nl ++ t ++ nl)).
    by rewrite Hr.
Qed.

End CommaList.

(** * The further properties on concrete sites *)

Section ReferenceMore.

Ltac no_such_byte :=
  let Hin := fresh "Hin" in
  intros Hin; vm_compute in Hin;
  repeat (destruct Hin as [Hin|Hin]; [discriminate Hin|]); exact Hin.

Lemma trimmed_between (c d : ascii) (mid : gostring) :
  is_ascii_byte c = true -> asciiSpace c = false ->
  is_ascii_byte d = true -> asciiSpace d = false ->
  trimmed (c :: mid ++ [d]).
Proof.
  intros Hc Hnc Hd Hnd. split.
  - by exists c, (mid ++ [d]).
  - by exists (c :: mid), d.
Qed.

Lemma skip_ws_ends_with_backquote (a : gostring) :
  exists t, Ref.skip_ws (a ++ str "`") = t ++ str "`".
Proof.
  induction a as [|c a [t IH]]; [by exists []|].
  simpl. destruct (json_space c); [by exists t|].
  by exists (c :: a).
Qed.

Lemma Ref_parse_rejects_backquote (s : gostring) : Ref.parse (str "`" ++ s) = None.
Proof.
  unfold Ref.parse.
  assert (Htrim : exists u, Ref.json_trim (str "`" ++ s) = str "`" ++ u).
  { unfold Ref.json_trim.
    change (Ref.skip_ws (str "`" ++ s)) with (str "`" ++ s).
    change (rev (str "`" ++ s)) with (rev s ++ str "`").
    destruct (skip_ws_ends_with_backquote (rev s)) as [t ->].
    exists (rev t). by rewrite rev_app_distr. }
  destruct Htrim as [u ->]. reflexivity.
Qed.

Lemma Ref_strings_reject_backquote : rejects_backquote Ref.Unmarshal_strings.
Proof. intros s. unfold Ref.Unmarshal_strings. by rewrite Ref_parse_rejects_backquote. Qed.

Lemma Ref_results_reject_backquote : rejects_backquote Ref.Unmarshal_results.
Proof. intros s. unfold Ref.Unmarshal_results. by rewrite Ref_parse_rejects_backquote. Qed.

Lemma cleanupHTML_only_deletes_witness :
  @cleanupHTML Ref.lib Cases.plain_head = Ret Cases.plain_cleaned /\
  Cases.plain_cleaned `sublist_of` Cases.plain_head /\
  (length Cases.plain_cleaned <= length Cases.plain_head)%nat.
Proof.
  assert (Hrun : @cleanupHTML Ref.lib Cases.plain_head = Ret Cases.plain_cleaned)
    by (vm_compute; reflexivity).
  split; [exact Hrun|].
  exact (@cleanupHTML_only_deletes Ref.lib Cases.plain_head Cases.plain_cleaned Hrun).
Defined.

Lemma removeTagsAndContent_leaves_no_block_witness :
  forallb is_ascii_byte Cases.plain_head = true /\
  exists cleaned,
    @removeTagsAndContent Ref.lib Cases.plain_head (str "script") = Ret cleaned /\
    forallb is_ascii_byte cleaned = true /\
    ~ has_block cleaned (str "script").
Proof.
  split; [reflexivity|].
  apply (@removeTagsAndContent_leaves_no_block Ref.lib Cases.plain_head (str "script"));
    reflexivity.
Defined.

Lemma cleanupHTML_ascii_clean_witness :
  forallb is_ascii_byte Demo.attr_page = true /\
  exists cleaned,
    @cleanupHTML Ref.lib Demo.attr_page = Ret cleaned /\
    forallb is_ascii_byte cleaned = true /\
    ~ has_block cleaned (str "style").
Proof.
  split; [reflexivity|].
  apply (@cleanupHTML_ascii_clean Ref.lib Demo.attr_page). reflexivity.
Defined.

Lemma removeTagsAndContent_unterminated_witness :
  @removeTagsAndContent Ref.lib
    (str "<title>T</title>" ++ (str "<" ++ str "script") ++ str " async" ++ str ">"
     ++ str "var x=1;") (str "script")
  = Ret (str "<title>T</title>").
Proof.
  apply (@removeTagsAndContent_unterminated Ref.lib (str "<title>T</title>")
           (str " async") (str "var x=1;") (str "script")).
  - reflexivity.
  - reflexivity.
  - apply first_occurrence_of_Index; [reflexivity | vm_compute; reflexivity].
  - apply lacks_of_Index. vm_compute. reflexivity.
Defined.

Lemma cleanupHTML_can_uncover_script_witness :
  @cleanupHTML Ref.lib
    (str "<scr<style>" ++ str "p{}" ++ str "</style>ipt>" ++ str "f()" ++ str "</script>")
  = Ret (str "<script>" ++ str "f()" ++ str "</script>") /\
  has_block (str "<script>" ++ str "f()" ++ str "</script>") (str "script").
Proof.
  apply (@cleanupHTML_can_uncover_script Ref.lib (str "p{}") (str "f()"));
    first [reflexivity | no_such_byte].
Defined.

Lemma cleanupHTML_ends_witness : @cleanupHTML Ref.lib istanbul_head <> OutOfFuel.
Proof. exact (@cleanupHTML_ends Ref.lib istanbul_head). Defined.

Lemma cleanupHTML_panics_after_invalid_bytes_witness :
  @cleanupHTML Ref.lib (replicate 5 (byte_chr 255) ++ str "<script") = Panic.
Proof.
  apply (@cleanupHTML_panics_after_invalid_bytes Ref.lib 5); [reflexivity | lia].
Defined.

Lemma extractHeads_keys_are_urls_witness :
  @extractHeads Ref.lib Demo.world_two
    [str "https://ex.org/upper"; str "https://ex.org/attr"] 0%nat
  = Ret ((<[str "https://ex.org/attr" := []]> (<[str "https://ex.org/upper" := []]> ∅),
          None), 0%nat) /\
  @None error = None /\
  dom (<[str "https://ex.org/attr" := []]>
         (<[str "https://ex.org/upper" := []]> (∅ : gmap gostring gostring)))
  = list_to_set [str "https://ex.org/upper"; str "https://ex.org/attr"].
Proof.
  assert (Hrun : @extractHeads Ref.lib Demo.world_two
                   [str "https://ex.org/upper"; str "https://ex.org/attr"] 0%nat
                 = Ret ((<[str "https://ex.org/attr" := []]>
                           (<[str "https://ex.org/upper" := []]> ∅), None), 0%nat)).
  { unfold extractHeads, bind. cbn [extractHeads_loop]. unfold bind.
    assert (Hu : @extractHeads_step Ref.lib Demo.world_two ∅ (str "https://ex.org/upper") 0%nat
                 = Ret (<[str "https://ex.org/upper" := []]> ∅, 0%nat)).
    { unfold extractHeads_step, bind, lift.
      replace (@http_Get Demo.world_two (str "https://ex.org/upper") 0%nat)
        with (HttpOk (Demo.ok Demo.upper_page), 0%nat) by (vm_compute; reflexivity).
      cbn [Body Demo.ok].
      replace (Index Demo.upper_page (str "<head>")) with (-1) by (vm_compute; reflexivity).
      reflexivity. }
    rewrite Hu.
    assert (Ha : @extractHeads_step Ref.lib Demo.world_two
                   (<[str "https://ex.org/upper" := []]> ∅) (str "https://ex.org/attr") 0%nat
                 = Ret (<[str "https://ex.org/attr" := []]>
                          (<[str "https://ex.org/upper" := []]> ∅), 0%nat)).
    { unfold extractHeads_step, bind, lift.
      replace (@http_Get Demo.world_two (str "https://ex.org/attr") 0%nat)
        with (HttpOk (Demo.ok Demo.attr_page), 0%nat) by (vm_compute; reflexivity).
      cbn [Body Demo.ok].
      replace (Index Demo.attr_page (str "<head>")) with (-1) by (vm_compute; reflexivity).
      reflexivity. }
    rewrite Ha. reflexivity. }
  split; [exact Hrun|].
  exact (@extractHeads_keys_are_urls Ref.lib Demo.world_two _ _ _ _ _ Hrun).
Defined.

Lemma extractHeads_survives_outage_witness :
  exists heads w',
    @extractHeads Ref.lib Cases.world_offline Demo.small_urls 0%nat
    = Ret ((heads, None), w') /\
    dom heads = list_to_set Demo.small_urls /\
    forall url, url ∈ Demo.small_urls -> heads !! url = Some [].
Proof.
  apply (@extractHeads_survives_outage Ref.lib Cases.world_offline Demo.small_urls 0%nat).
  intros url w. by exists (str "dial tcp: connection refused"), w.
Defined.

Lemma extractHeads_step_between_markers_witness :
  @extractHeads_step Ref.lib Demo.world_two ∅ (str "https://ex.org/page") 0%nat
  = run_bind (@cleanupHTML Ref.lib Cases.plain_head)
      (fun cleaned => Ret (<[str "https://ex.org/page" := cleaned]> ∅,
                           @time_Sleep Demo.world_two 100 0%nat)) /\
  @Prev.extractHeads_step Demo.world_two ∅ (str "https://ex.org/page") 0%nat
  = Ret (<[str "https://ex.org/page" := Cases.plain_head]> ∅,
         @time_Sleep Demo.world_two 100 0%nat).
Proof.
  apply (@extractHeads_step_between_markers Ref.lib Demo.world_two ∅
           (str "https://ex.org/page") (Demo.ok Demo.plain_page)
           (str "<html>") Cases.plain_head (str "<body></body></html>") 0%nat 0%nat).
  - reflexivity.
  - reflexivity.
  - apply first_occurrence_of_Index; [reflexivity | vm_compute; reflexivity].
  - apply first_occurrence_of_Index; [reflexivity | vm_compute; reflexivity].
Defined.

Lemma getURLsFromSitemap_first_loc_of_each_witness :
  (@getURLsFromSitemap Ref.lib Cases.world_more 1 Cases.odd_site 0%nat
   = Ret ((first_locations Cases.odd_elem, None), 0%nat) /\
   (length (first_locations Cases.odd_elem) <= length (url_entries Cases.odd_elem))%nat) /\
  first_locations Cases.odd_elem = [str "https://odd.ex.org/a"; str "https://odd.ex.org/c"].
Proof.
  split; [|reflexivity].
  apply (@getURLsFromSitemap_first_loc_of_each Ref.lib Cases.world_more 0 Cases.odd_site
           Cases.odd_doc Cases.odd_elem 0%nat 0%nat).
  - exists (Demo.ok Cases.odd_xml).
    split; [reflexivity|]. split; [reflexivity|]. vm_compute. reflexivity.
  - split; reflexivity.
Defined.

Lemma parseXMLSitemap_index_never_fails_witness :
  @parseXMLSitemap Ref.lib Demo.world_two 2 (Demo.index_site ++ str "/sitemap.xml") 0%nat
  = Ret ((Demo.a_urls ++ Demo.c_urls, None), 0%nat) /\
  @None error = None.
Proof.
  assert (Hrun : @parseXMLSitemap Ref.lib Demo.world_two 2
                   (Demo.index_site ++ str "/sitemap.xml") 0%nat
                 = Ret ((Demo.a_urls ++ Demo.c_urls, None), 0%nat))
    by (vm_compute; reflexivity).
  split; [exact Hrun|].
  apply (@parseXMLSitemap_index_never_fails Ref.lib Demo.world_two 1
           (Demo.index_site ++ str "/sitemap.xml") Demo.index_doc Demo.index_elem
           (Demo.a_urls ++ Demo.c_urls) None 0%nat 0%nat 0%nat).
  - exists (Demo.ok Demo.index_xml).
    split; [reflexivity|]. split; [reflexivity|]. vm_compute. reflexivity.
  - split; reflexivity.
  - exact Hrun.
Defined.

Lemma parseXMLSitemap_self_reference_diverges_witness :
  @parseXMLSitemap Ref.lib Cases.world_more 7 (Cases.loop_site ++ str "/sitemap.xml") 0%nat
  = OutOfFuel.
Proof.
  apply (@parseXMLSitemap_self_reference_diverges Ref.lib Cases.world_more
           (Cases.loop_site ++ str "/sitemap.xml") Cases.loop_doc Cases.loop_elem []).
  - intros w. exists w, (Demo.ok Cases.loop_xml).
    split; [reflexivity|]. split; [reflexivity|]. vm_compute. reflexivity.
  - split; reflexivity.
  - reflexivity.
Defined.

Lemma First_Discover_one_result_per_entry_witness :
  exists results w',
    @First.Discover Ref.lib Demo.world_two Demo.site 0%nat = Ret ((results, None), w') /\
    map URL results = first_locations Demo.urlset_elem /\
    Forall (fun r => Category r = str "sitemap") results.
Proof.
  apply (@First_Discover_one_result_per_entry Ref.lib Demo.world_two Demo.site
           Demo.urlset_doc Demo.urlset_elem 0%nat 0%nat).
  - exists (Demo.ok Demo.urlset_xml), Demo.urlset_xml.
    split; [reflexivity|]. split; [reflexivity|]. split; [reflexivity|].
    vm_compute. reflexivity.
  - split; reflexivity.
Defined.

Lemma First_Discover_rejects_index_witness :
  @First.Discover Ref.lib Demo.world_two Demo.index_site 0%nat
  = Ret (([], Some ErrInvalidSitemapFormat), 0%nat).
Proof.
  apply (@First_Discover_rejects_index Ref.lib Demo.world_two Demo.index_site
           Demo.index_doc Demo.index_elem 0%nat 0%nat).
  - exists (Demo.ok Demo.index_xml), Demo.index_xml.
    split; [reflexivity|]. split; [reflexivity|]. split; [reflexivity|].
    vm_compute. reflexivity.
  - split; reflexivity.
Defined.

Lemma Prev_getURLsFromSitemap_urlset_witness :
  @Prev.getURLsFromSitemap Ref.lib Demo.world_two Demo.site 0%nat
  = Ret ((map Text (loc_entries Demo.urlset_elem), None), 0%nat).
Proof.
  apply (@Prev_getURLsFromSitemap_urlset Ref.lib Demo.world_two Demo.site
           Demo.urlset_doc Demo.urlset_elem 0%nat 0%nat).
  - exists (Demo.ok Demo.urlset_xml), Demo.urlset_xml.
    split; [reflexivity|]. split; [reflexivity|]. split; [reflexivity|].
    vm_compute. reflexivity.
  - split; reflexivity.
  - unfold well_formed_urlset. vm_compute. repeat constructor.
Defined.

Lemma Prev_NarrowDownURLs_only_service_error_witness :
  @Prev.NarrowDownURLs Cases.world_llm_down Demo.small_urls (str "news") 0%nat
  = Ret (([], Some ErrCallLLM), 0%nat) /\
  ErrCallLLM = ErrCallLLM.
Proof.
  assert (Hrun : @Prev.NarrowDownURLs Cases.world_llm_down Demo.small_urls (str "news") 0%nat
                 = Ret (([], Some ErrCallLLM), 0%nat)) by reflexivity.
  split; [exact Hrun|].
  exact (@Prev_NarrowDownURLs_only_service_error Cases.world_llm_down Demo.small_urls
           (str "news") 0%nat 0%nat [] ErrCallLLM Hrun).
Defined.

Lemma Discover_error_has_no_results_witness :
  @Discover Ref.lib Demo.world_prose 1 Demo.site (str "news") 0%nat
  = Ret (([], Some ErrParseJSON), 0%nat) /\
  @nil Result = [].
Proof.
  assert (Hrun : @Discover Ref.lib Demo.world_prose 1 Demo.site (str "news") 0%nat
                 = Ret (([], Some ErrParseJSON), 0%nat)) by (vm_compute; reflexivity).
  split; [exact Hrun|].
  exact (@Discover_error_has_no_results Ref.lib Demo.world_prose 1 Demo.site (str "news")
           0%nat 0%nat [] ErrParseJSON Hrun).
Defined.

Lemma Discover_stops_at_service_failure_witness :
  @Discover Ref.lib Cases.world_llm_down 1 Demo.site (str "news") 0%nat
  = Ret (([], Some ErrCallLLM), 0%nat).
Proof.
  apply (@Discover_stops_at_service_failure Ref.lib Cases.world_llm_down). left.
  exists Demo.small_urls, 0%nat, Demo.small_urls, 0%nat.
  split; [vm_compute; reflexivity|]. split; reflexivity.
Defined.

Lemma Discover_panics_without_choice_witness :
  @Discover Ref.lib Cases.world_silent 1 Demo.site (str "news") 0%nat = Panic.
Proof.
  apply (@Discover_panics_without_choice Ref.lib Cases.world_silent 1 Demo.site
           (str "news") 0%nat 0%nat). left.
  exists Demo.small_urls, 0%nat, Demo.small_urls, 0%nat.
  split; [vm_compute; reflexivity|]. split; reflexivity.
Defined.

Lemma parseCommaSeparated_round_trip_witness :
  Prev.parseCommaSeparated
    (Join [str "https://ex.org/"; str "https://ex.org/about"] (str ", "))
  = [str "https://ex.org/"; str "https://ex.org/about"] /\
  Join [str "https://ex.org/"; str "https://ex.org/about"] (str ", ")
  = str "https://ex.org/, https://ex.org/about".
Proof.
  split; [|reflexivity].
  apply (parseCommaSeparated_round_trip (str "https://ex.org/") [str "https://ex.org/about"]).
  - constructor; [no_such_byte|]. constructor; [no_such_byte | constructor].
  - constructor; [|constructor; [|constructor]].
    + by apply (trimmed_between "h" "/" (str "ttps://ex.org")).
    + by apply (trimmed_between "h" "t" (str "ttps://ex.org/abou")).
Defined.

Lemma plain_fence_is_not_stripped_witness :
  unfenced (plain_fenced (Demo.json_list Demo.small_urls))
  = fence_close ++ nl ++ Demo.json_list Demo.small_urls ++ nl /\
  @parseJSONURLs Ref.lib (plain_fenced (Demo.json_list Demo.small_urls))
  = ([], Some ErrParseJSON) /\
  @parseJSONResponse Ref.lib (plain_fenced (Demo.json_list Demo.small_urls))
  = ([], Some ErrParseJSON).
Proof.
  apply (@plain_fence_is_not_stripped Ref.lib (Demo.json_list Demo.small_urls)).
  - apply Ref_strings_reject_backquote.
  - apply Ref_results_reject_backquote.
  - exists [], (Join (map (fun u => [dquote] ++ u ++ [dquote]) Demo.small_urls) (str ",")), [].
    split; [|split; reflexivity].
    unfold Demo.json_list. by rewrite app_nil_r.
Defined.

Lemma removeTagsAndContent_malformed_opening_witness :
  @removeTagsAndContent Ref.lib
    (str "<title>X</title>" ++ (str "<" ++ str "script") ++ str " src=a.js")
    (str "script")
  = Ret (str "<title>X</title>" ++ (str "<" ++ str "script") ++ str " src=a.js").
Proof.
  apply (@removeTagsAndContent_malformed_opening Ref.lib (str "<title>X</title>")
           (str " src=a.js") (str "script")).
  - reflexivity.
  - reflexivity.
  - apply first_occurrence_of_Index; [reflexivity | vm_compute; reflexivity].
  - no_such_byte.
Defined.


End ReferenceMore.
